(** * A property-driven finite state machine

    Shallow embedding of the [State], [Transition] and [FiniteStateMachine]
    classes (the block that follows the Rectangle geometry code in
    [src/server/geom/Rectangle.ts]) and the properties of its transition
    evaluation, followed by the set-up loop of the player that drives the
    machine and by the comparisons of the Rectangle geometry itself.

    Modelling conventions.
    - JavaScript objects are shared and mutable: the [State] and [Transition]
      objects of one machine live in two append-only arenas and are referred
      to by their index.  [currentState], [fromState] and [toState] hold
      references, [null] is [None].
    - The registry [_states] is a plain object: [this._states[name]] reads
      an own property or, failing that, a member inherited through the
      prototype chain.  The own properties are a finite map from names to
      [State] objects; what a name inherits is a value that is not a [State]
      (a function of [Object.prototype], [Object] itself, ...), and
      [getState] returns it like any other truthy value.  Writing the
      property "__proto__" replaces the prototype of the registry instead of
      adding an own property.
    - The back pointer [fsm] of a [State] or [Transition] is the machine the
      arenas belong to; [this.fsm.values] is the [values] field of that
      machine.
    - State names and property keys are strings; the property bag is a finite
      map over them.
    - A guard is a total boolean function of the property bag.  Numbers in
      the bag are integers; the machine never inspects a value.
    - A method is a computation on the machine that completes normally or
      throws; what it wrote before it threw stays written.  Methods that
      return [this] return [tt]. *)

From stdpp Require Import gmap strings list fin_maps.
From Stdlib Require Import ZArith Floats.

(** ** Values and the property bag *)

Inductive value : Type :=
  | VUndefined
  | VNull
  | VBool (b : bool)
  | VNumber (n : Z)
  | VString (s : string).

#[global] Instance value_eq_dec : EqDecision value.
Proof. solve_decision. Defined.

(** [values.key]: reading a key that is absent yields [undefined]. *)
Definition prop (values : gmap string value) (key : string) : value :=
  default VUndefined (values !! key).

(** [a === b] on primitive values. *)
Definition strict_eq (a b : value) : bool := bool_decide (a = b).

(** ** Objects *)

(** The values other than a [State] that a name can reach in the registry
    object: the members of [Object.prototype] and, once a [State] has been
    installed as the prototype of the registry, the members of that [State]
    and of [State.prototype]. *)
Inductive foreign : Type :=
  | ObjectFunction                (* [Object], the value of "constructor" *)
  | ObjectMethod (n : string)     (* the function [Object.prototype[n]] *)
  | ObjectPrototype               (* [Object.prototype], read as "__proto__" *)
  | StateClass                    (* the class [State] *)
  | StateMethod (n : string)      (* the function [State.prototype[n]] *)
  | MachineObject                 (* the machine, the [fsm] of a [State] *)
  | NameString (s : string)       (* the string in the [name] of a [State] *)
  | TransitionArray.              (* the [_transitions] array of a [State] *)

(** A reference: a [State] object of the arena, or one of the values above. *)
Inductive ref : Type :=
  | StateRef (s : nat)
  | Foreign (f : foreign).

(** The [name] property of an object: a string, or [undefined]. *)
Inductive name_value : Type :=
  | Named (s : string)
  | Unnamed.

Record Transition : Type := mkTransition {
  validation : gmap string value → bool;
  fromState : option ref;
  toState : option ref
}.

Record State : Type := mkState {
  name : string;
  _transitions : list nat
}.

(** [_states] holds the own properties of the registry object and
    [_states_proto] its prototype: [None] for [Object.prototype], the
    prototype of an object literal, or the [State] object installed by an
    assignment to "__proto__". *)
Record FiniteStateMachine : Type := mkFiniteStateMachine {
  state_objects : list State;
  transition_objects : list Transition;
  _states : gmap string nat;
  _states_proto : option nat;
  values : gmap string value;
  currentState : option ref
}.

Definition set_state_objects (f : list State → list State)
    (m : FiniteStateMachine) : FiniteStateMachine :=
  mkFiniteStateMachine (f (state_objects m)) (transition_objects m)
    (_states m) (_states_proto m) (values m) (currentState m).

Definition set_transition_objects (f : list Transition → list Transition)
    (m : FiniteStateMachine) : FiniteStateMachine :=
  mkFiniteStateMachine (state_objects m) (f (transition_objects m))
    (_states m) (_states_proto m) (values m) (currentState m).

Definition set__states (f : gmap string nat → gmap string nat)
    (m : FiniteStateMachine) : FiniteStateMachine :=
  mkFiniteStateMachine (state_objects m) (transition_objects m)
    (f (_states m)) (_states_proto m) (values m) (currentState m).

Definition set__states_proto (p : option nat)
    (m : FiniteStateMachine) : FiniteStateMachine :=
  mkFiniteStateMachine (state_objects m) (transition_objects m)
    (_states m) p (values m) (currentState m).

Definition set_values (f : gmap string value → gmap string value)
    (m : FiniteStateMachine) : FiniteStateMachine :=
  mkFiniteStateMachine (state_objects m) (transition_objects m)
    (_states m) (_states_proto m) (f (values m)) (currentState m).

Definition set_currentState (c : option ref)
    (m : FiniteStateMachine) : FiniteStateMachine :=
  mkFiniteStateMachine (state_objects m) (transition_objects m)
    (_states m) (_states_proto m) (values m) c.

(** ** Computations: state passing with exceptions *)

Inductive exn : Type :=
  | StateNotFound (statename : string)   (* throw `State ${statename} not found` *)
  | TypeError.                           (* property access on null or undefined,
                                            or a call of what is not a function *)

Inductive completion (A : Type) : Type :=
  | Normal (a : A)
  | Throw (e : exn).
Arguments Normal {A} a.
Arguments Throw {A} e.

Definition M (A : Type) : Type :=
  FiniteStateMachine → completion A * FiniteStateMachine.

Definition ret {A} (a : A) : M A := λ m, (Normal a, m).

Definition bind {A B} (c : M A) (k : A → M B) : M B := λ m,
  match c m with
  | (Normal a, m') => k a m'
  | (Throw e, m') => (Throw e, m')
  end.

Notation "'let*' x ':=' c 'in' k" := (bind c (λ x, k))
  (at level 10, x name, c at level 100, k at level 200).

Definition modify (f : FiniteStateMachine → FiniteStateMachine) : M unit :=
  λ m, (Normal tt, f m).

(** Dereferencing: a reference outside its arena stands for [undefined]. *)
Definition the_State (s : nat) : M State := λ m,
  match state_objects m !! s with
  | Some st => (Normal st, m)
  | None => (Throw TypeError, m)
  end.

(** [this.currentState.<member>]: member access on [null] throws. *)
Definition this_currentState : M ref := λ m,
  match currentState m with
  | Some r => (Normal r, m)
  | None => (Throw TypeError, m)
  end.

(** The receiver of a call of [addTransition] or [checkForTransitions]: only
    a [State] has these methods, on any other value the call throws. *)
Definition receiver (r : ref) : M nat := λ m,
  match r with
  | StateRef s => (Normal s, m)
  | Foreign _ => (Throw TypeError, m)
  end.

(** [f.name] for a value that is not a [State]: a function has the name it
    was declared with, the others have none. *)
Definition foreign_name (f : foreign) : name_value :=
  match f with
  | ObjectFunction => Named "Object"
  | ObjectMethod n => Named n
  | ObjectPrototype => Unnamed
  | StateClass => Named "State"
  | StateMethod n => Named n
  | MachineObject => Unnamed
  | NameString _ => Unnamed
  | TransitionArray => Unnamed
  end.

(** [r.name] *)
Definition the_name (r : ref) : M name_value :=
  match r with
  | StateRef s => let* st := the_State s in ret (Named (name st))
  | Foreign f => ret (foreign_name f)
  end.

(** A name used as property key and in the text of the exception:
    [undefined] reads "undefined". *)
Definition key_of (n : name_value) : string :=
  match n with
  | Named s => s
  | Unnamed => "undefined"
  end.

(** Truthiness of what a reference holds: objects and functions are truthy,
    a string is unless it is empty. *)
Definition truthy (r : ref) : bool :=
  match r with
  | Foreign (NameString s) => negb (bool_decide (s = ""))
  | _ => true
  end.

(** ** class State *)

(** [new State(fsm, name)] *)
Definition new_State (name : string) : M nat := λ m,
  (Normal (length (state_objects m)),
   set_state_objects (λ h, h ++ [mkState name []]) m).

Definition push_transition (transition : nat) (st : State) : State :=
  mkState (name st) (_transitions st ++ [transition]).

(** [this._transitions.push(transition)] *)
Definition addTransition (this : nat) (transition : nat) : M unit :=
  modify (set_state_objects (alter (push_transition transition) this)).

(** The loop of [checkForTransitions]: the first transition whose guard holds
    decides, and what it yields is its [toState], bound or not. *)
Fixpoint first_valid (heap : list Transition) (values : gmap string value)
    (ts : list nat) : completion (option ref) :=
  match ts with
  | [] => Normal None
  | t :: rest =>
      match heap !! t with
      | None => Throw TypeError
      | Some tr =>
          if validation tr values then Normal (toState tr)
          else first_valid heap values rest
      end
  end.

Definition checkForTransitions (this : nat) : M (option ref) :=
  let* st := the_State this in
  λ m, (first_valid (transition_objects m) (values m) (_transitions st), m).

(** ** class FiniteStateMachine: lookup *)

Definition new_FiniteStateMachine : FiniteStateMachine :=
  mkFiniteStateMachine [] [] ∅ None ∅ None.

(** The functions of [Object.prototype], each named as its property. *)
Definition object_methods : list string :=
  [ "toString"; "toLocaleString"; "valueOf"; "hasOwnProperty";
    "isPrototypeOf"; "propertyIsEnumerable";
    "__defineGetter__"; "__defineSetter__";
    "__lookupGetter__"; "__lookupSetter__" ].

(** [Object.prototype[n]] for a name other than "__proto__". *)
Definition object_member (n : string) : option foreign :=
  if bool_decide (n = "constructor") then Some ObjectFunction
  else if bool_decide (n ∈ object_methods) then Some (ObjectMethod n)
  else None.

(** [st[n]] for a [State] object and a name other than "__proto__": its own
    fields, then [State.prototype], then [Object.prototype]. *)
Definition state_member (st : State) (n : string) : option foreign :=
  if bool_decide (n = "fsm") then Some MachineObject
  else if bool_decide (n = "name") then Some (NameString (name st))
  else if bool_decide (n = "_transitions") then Some TransitionArray
  else if bool_decide (n = "constructor") then Some StateClass
  else if bool_decide (n ∈ ["addTransition"; "checkForTransitions"])
  then Some (StateMethod n)
  else object_member n.

(** What the registry object inherits under a name.  The accessor
    "__proto__" of [Object.prototype] yields the prototype of the registry
    itself. *)
Definition inherited (m : FiniteStateMachine) (n : string) : option ref :=
  match _states_proto m with
  | None =>
      if bool_decide (n = "__proto__") then Some (Foreign ObjectPrototype)
      else Foreign <$> object_member n
  | Some s =>
      if bool_decide (n = "__proto__") then Some (StateRef s)
      else match state_objects m !! s with
           | Some st => Foreign <$> state_member st n
           | None => Foreign <$> object_member n
           end
  end.

(** [this._states[n]], [None] for [undefined]. *)
Definition lookup_states (m : FiniteStateMachine) (n : string) : option ref :=
  match _states m !! n with
  | Some s => Some (StateRef s)
  | None => inherited m n
  end.

Definition getState (statename : string) : M ref := λ m,
  match lookup_states m statename with
  | Some r =>
      if truthy r then (Normal r, m)
      else (Throw (StateNotFound statename), m)
  | None => (Throw (StateNotFound statename), m)
  end.

(** ** class Transition *)

(** [(_) => true], the guard a new [Transition] starts with. *)
Definition always_true : gmap string value → bool := λ _, true.

(** [new Transition(fsm)] with [fromState] already assigned: the object is
    recorded in the arena once it can be reached. *)
Definition new_Transition (fromState : ref) : M nat := λ m,
  (Normal (length (transition_objects m)),
   set_transition_objects
     (λ h, h ++ [mkTransition always_true (Some fromState) None]) m).

Definition bind_toState (r : ref) (tr : Transition) : Transition :=
  mkTransition (validation tr) (fromState tr) (Some r).

Definition bind_validation (validator : gmap string value → bool)
    (tr : Transition) : Transition :=
  mkTransition validator (fromState tr) (toState tr).

Definition to (this : nat) (state : string) : M nat :=
  let* r := getState state in
  let* _ := modify (set_transition_objects (alter (bind_toState r) this)) in
  ret this.

Definition when (this : nat) (validator : gmap string value → bool) : M nat :=
  let* _ := modify (set_transition_objects (alter (bind_validation validator) this)) in
  ret this.

(** ** class FiniteStateMachine: methods *)

Definition currentStateName : M name_value :=
  let* r := this_currentState in
  the_name r.

Definition setCurrentState (stateName : string) : M unit :=
  let* r := getState stateName in
  modify (set_currentState (Some r)).

(** [this._states[stateName] = new State(this, stateName, stateAnim)]: the
    name "__proto__" reaches the setter of [Object.prototype], which makes
    the new object the prototype of the registry; any other name becomes an
    own property.  The animation argument is dropped by the constructor of
    [State] and is left out. *)
Definition addState (stateName : string) : M unit :=
  let* s := new_State stateName in
  modify (if bool_decide (stateName = "__proto__")
          then set__states_proto (Some s)
          else set__states <[stateName := s]>).

(** [nwState.name] is looked up whatever [nwState] is; an [undefined] name
    is looked up as "undefined". *)
Definition updateInternalState : M unit :=
  let* cur := this_currentState in
  let* this := receiver cur in
  let* nwState := checkForTransitions this in
  match nwState with
  | Some r =>
      if truthy r
      then let* n := the_name r in setCurrentState (key_of n)
      else ret tt
  | None => ret tt
  end.

Definition setProperty (key : string) (v : value) : M unit :=
  let* _ := modify (set_values <[key := v]>) in
  updateInternalState.

(** [Object.keys(objects).forEach(key => this.values[key] = objects[key])] *)
Definition write_all (objects : gmap string value)
    (values : gmap string value) : gmap string value :=
  foldl (λ vals kv, <[kv.1 := kv.2]> vals) values (map_to_list objects).

Definition setProperties (objects : gmap string value) : M unit :=
  let* _ := modify (set_values (write_all objects)) in
  updateInternalState.

(** The new [Transition] is recorded once it is pushed: when the value found
    under the name has no [addTransition], the call throws and the object
    made for it is unreachable. *)
Definition from (stateName : string) : M nat :=
  let* origin := getState stateName in
  let* s := getState stateName in
  let* this := receiver s in
  let* _transition := new_Transition origin in
  let* _ := addTransition this _transition in
  ret _transition.

(** [this.currentState.name === stateName] *)
Definition is_ (stateName : string) : M bool :=
  let* r := this_currentState in
  let* n := the_name r in
  ret (match n with
       | Named s => bool_decide (s = stateName)
       | Unnamed => false
       end).

(** [Array.prototype.some]: stops at the first element that satisfies. *)
Fixpoint some {A} (f : A → M bool) (l : list A) : M bool :=
  match l with
  | [] => ret false
  | x :: rest => let* b := f x in if b then ret true else some f rest
  end.

Definition isOneOf (stateNames : list string) : M bool :=
  some is_ stateNames.

(** ** Call sequences of an owner *)

Inductive call : Type :=
  | AddState (stateName : string)
  | From (stateName : string)
  | To (transition : nat) (state : string)
  | When (transition : nat) (validator : gmap string value → bool)
  | SetCurrentState (stateName : string)
  | SetProperty (key : string) (v : value)
  | SetProperties (objects : gmap string value).

(** The machine after one call, whether the call returned or threw. *)
Definition exec (c : call) (m : FiniteStateMachine) : FiniteStateMachine :=
  match c with
  | AddState n => (addState n m).2
  | From n => (from n m).2
  | To t n => (to t n m).2
  | When t g => (when t g m).2
  | SetCurrentState n => (setCurrentState n m).2
  | SetProperty k v => (setProperty k v m).2
  | SetProperties o => (setProperties o m).2
  end.

Definition run (cs : list call) (m : FiniteStateMachine) : FiniteStateMachine :=
  foldl (λ m c, exec c m) m cs.

Definition reachable (m : FiniteStateMachine) : Prop :=
  ∃ cs, m = run cs new_FiniteStateMachine.

(** ** Well-formed machines

    What every machine built by calls satisfies: an own property of the
    registry is a [State] object named as the property, the prototype of the
    registry, once replaced, is a [State] object named "__proto__", every
    [State] object can be reached from the registry under its name (a later
    [addState] of the same name may have put another object there), and no
    reference to a [State] or [Transition] dangles. *)

(** [this._states[n]] when that is a [State] object. *)
Definition registered (m : FiniteStateMachine) (n : string) : option nat :=
  match lookup_states m n with
  | Some (StateRef s) => Some s
  | _ => None
  end.

Record wf (m : FiniteStateMachine) : Prop := mk_wf {
  wf_own : ∀ n s, _states m !! n = Some s →
    n ≠ "__proto__" ∧ ∃ st, state_objects m !! s = Some st ∧ name st = n;
  wf_proto : ∀ s, _states_proto m = Some s →
    ∃ st, state_objects m !! s = Some st ∧ name st = "__proto__";
  wf_named : ∀ s st, state_objects m !! s = Some st →
    is_Some (registered m (name st));
  wf_lists : ∀ s st t, state_objects m !! s = Some st →
    t ∈ _transitions st → t < length (transition_objects m);
  wf_toState : ∀ t tr s, transition_objects m !! t = Some tr →
    toState tr = Some (StateRef s) → s < length (state_objects m);
  wf_current : ∀ s, currentState m = Some (StateRef s) →
    s < length (state_objects m)
}.

(** The current state, when there is one, is a [State] object, the one the
    registry yields under the name of that object. *)
Definition current_registered (m : FiniteStateMachine) : Prop :=
  ∀ r, currentState m = Some r →
    ∃ s st, r = StateRef s ∧ state_objects m !! s = Some st ∧
      lookup_states m (name st) = Some (StateRef s).

(** No transition has, as its destination, a value that is not a [State]. *)
Definition destinations_are_States (m : FiniteStateMachine) : Prop :=
  ∀ t tr f, transition_objects m !! t = Some tr → toState tr ≠ Some (Foreign f).

(** [getState] returns, for the name, a value that is not a [State]. *)
Definition returns_foreign (m : FiniteStateMachine) (n : string) : bool :=
  match getState n m with
  | (Normal (Foreign _), _) => true
  | _ => false
  end.

(** The call, made on the machine, is not an [addState] of a name for which
    [is] returns [true], and not a [setCurrentState] or [to] of a name for
    which [getState] returns a value that is not a [State]. *)
Definition keeps_current (c : call) (m : FiniteStateMachine) : bool :=
  match c with
  | AddState n =>
      match is_ n m with
      | (Normal true, _) => false
      | _ => true
      end
  | SetCurrentState n | To _ n => negb (returns_foreign m n)
  | _ => true
  end.

(** Every call of the sequence is such a call on the machine it is made
    on. *)
Fixpoint all_keep_current (cs : list call) (m : FiniteStateMachine) : bool :=
  match cs with
  | [] => true
  | c :: rest => keeps_current c m && all_keep_current rest (exec c m)
  end.

(** No call of the sequence is [setCurrentState]. *)
Definition never_set (cs : list call) : bool :=
  forallb (λ c, match c with SetCurrentState _ => false | _ => true end) cs.

(** No call of the sequence is [addState] of the name. *)
Definition never_added (n : string) (cs : list call) : bool :=
  forallb (λ c, match c with AddState n' => bool_decide (n' ≠ n) | _ => true end) cs.

(** [t.validation(values)] for a reference [t]. *)
Definition guard_holds (heap : list Transition) (values : gmap string value)
    (t : nat) : bool :=
  match heap !! t with
  | Some tr => validation tr values
  | None => false
  end.

(** The guards of the listed transitions all fail on the bag. *)
Definition none_valid (heap : list Transition) (values : gmap string value)
    (ts : list nat) : bool :=
  forallb (λ t, negb (guard_holds heap values t)) ts.

(** [this.currentState._transitions], when a [State] is current. *)
Definition current_transitions (m : FiniteStateMachine) : option (list nat) :=
  match currentState m with
  | Some (StateRef s) => st ← state_objects m !! s; Some (_transitions st)
  | _ => None
  end.

(** [t.validation] *)
Definition guard_of (m : FiniteStateMachine) (t : nat)
    : option (gmap string value → bool) :=
  validation <$> transition_objects m !! t.

(** [t.toState], [Some None] while it is [null]. *)
Definition toState_of (m : FiniteStateMachine) (t : nat) : option (option ref) :=
  toState <$> transition_objects m !! t.

(** [t.toState.name], for a transition whose destination is a [State]. *)
Definition destination (m : FiniteStateMachine) (t : nat) : option string :=
  tr ← transition_objects m !! t;
  match toState tr with
  | Some (StateRef d) => name <$> state_objects m !! d
  | _ => None
  end.

(** None of the listed transitions has, as its destination, a value that is
    not a [State]. *)
Definition bound_to_States (m : FiniteStateMachine) (ts : list nat) : bool :=
  forallb (λ t, match toState_of m t with
                | Some (Some (Foreign _)) => false
                | _ => true
                end) ts.

(** A guard that asks for two entries at once, as
    [v => v.a === va && v.b === vb]. *)
Definition both (a b : string) (va vb : value)
    (v : gmap string value) : bool :=
  strict_eq (prop v a) va && strict_eq (prop v b) vb.

(** ** Machines used as examples *)

(** [v => v.velocityX !== 0] and [v => v.velocityX === 0] *)
Definition moving (v : gmap string value) : bool :=
  negb (strict_eq (prop v "velocityX") (VNumber 0)).

Definition still (v : gmap string value) : bool :=
  strict_eq (prop v "velocityX") (VNumber 0).

(** Two states that follow the horizontal velocity. *)
Definition walker_setup : list call :=
  [ AddState "Idle"; AddState "Running";
    From "Idle"; To 0 "Running"; When 0 moving;
    From "Running"; To 1 "Idle"; When 1 still;
    SetCurrentState "Idle" ].

Definition walker : FiniteStateMachine := run walker_setup new_FiniteStateMachine.

(** Two transitions that leave "A", neither with a guard of its own. *)
Definition fork_setup : list call :=
  [ AddState "A"; AddState "B"; AddState "C";
    From "A"; To 0 "B";
    From "A"; To 1 "C";
    SetCurrentState "A" ].

Definition fork : FiniteStateMachine := run fork_setup new_FiniteStateMachine.



(** A guarded transition registered before one without [when]. *)
Definition x_is_1 (v : gmap string value) : bool :=
  strict_eq (prop v "x") (VNumber 1).

Definition preempted_setup : list call :=
  [ AddState "A"; AddState "B"; AddState "C";
    From "A"; To 0 "C"; When 0 x_is_1;
    From "A"; To 1 "B";
    SetCurrentState "A" ].

Definition preempted : FiniteStateMachine :=
  run preempted_setup new_FiniteStateMachine.

(** "A" is registered again while it is current. *)
Definition registered_twice : FiniteStateMachine :=
  run [ AddState "A"; SetCurrentState "A"; AddState "A" ] new_FiniteStateMachine.

(** A name that was never registered and that the registry inherits. *)
Definition inherited_current : FiniteStateMachine :=
  run [ SetCurrentState "constructor" ] new_FiniteStateMachine.

(** A transition bound under such a name. *)
Definition inherited_destination : FiniteStateMachine :=
  run [ AddState "A"; From "A"; To 0 "constructor"; SetCurrentState "A" ]
    new_FiniteStateMachine.

(** A transition left without destination behind a complete one. *)
Definition half_built_second : FiniteStateMachine :=
  run [ AddState "A"; AddState "B";
        From "A"; To 0 "B";
        From "A";
        SetCurrentState "A" ] new_FiniteStateMachine.

(** A transition left without destination whose guard was replaced, ahead of
    a complete one. *)
Definition half_built_guarded : FiniteStateMachine :=
  run [ AddState "A"; AddState "B";
        From "A"; When 0 (λ _, false);
        From "A"; To 1 "B";
        SetCurrentState "A" ] new_FiniteStateMachine.

(** A transition left without destination ahead of a complete one. *)
Definition half_built_first : FiniteStateMachine :=
  run [ AddState "A"; AddState "B";
        From "A";
        From "A"; To 1 "B";
        SetCurrentState "A" ] new_FiniteStateMachine.

(** One pass per entry of the batch, for comparison with [setProperties]. *)
Definition setProperties_per_entry (entries : list (string * value)) : M unit :=
  foldr (λ kv rest, let* _ := setProperty kv.1 kv.2 in rest) (ret tt) entries.

(** A machine on which the two differ: "a" alone sends it to "Half", the
    two entries together send it to "Both". *)
Definition a_is_1 (v : gmap string value) : bool :=
  strict_eq (prop v "a") (VNumber 1).

Definition staged : FiniteStateMachine :=
  run [ AddState "Start"; AddState "Both"; AddState "Half";
        From "Start"; To 0 "Both"; When 0 (both "a" "b" (VNumber 1) (VNumber 2));
        From "Start"; To 1 "Half"; When 1 a_is_1;
        SetCurrentState "Start" ] new_FiniteStateMachine.

(** ** Further machines and the bag as the calls write it *)


(** "B" is registered again after a transition was bound to it. *)
Definition redirected : FiniteStateMachine :=
  run [ AddState "A"; AddState "B";
        From "A"; To 0 "B";
        AddState "B";
        SetCurrentState "A" ] new_FiniteStateMachine.

(** ** The set-up of the player's machine

    [Player.initStatemachine] (the second of the unnamed source files)
    drives the machine through [addState], [from], [to], [when] and
    [setCurrentState].  [Config.states] and [PlayerStates.Idle] are not among
    the sources and are parameters: the table lists the states in the order
    in which [for ... in] yields its keys, each with its transitions in the
    order of the keys of its [transitions] object. *)

(** [for (let k in o) f(k, o[k])] *)
Fixpoint forEach {A} (f : A → M unit) (l : list A) : M unit :=
  match l with
  | [] => ret tt
  | x :: rest => let* _ := f x in forEach f rest
  end.

(** [this.sm.from(origin).to(destination).when(transitions[destination])] *)
Definition declare (origin : string)
    (entry : string * (gmap string value → bool)) : M unit :=
  let* t := from origin in
  let* t' := to t entry.1 in
  let* _ := when t' entry.2 in
  ret tt.

Definition initStatemachine
    (states : list (string * list (string * (gmap string value → bool))))
    (Idle : string) : M unit :=
  let* _ := forEach (λ st, addState st.1) states in
  let* _ := forEach (λ st, forEach (declare st.1) st.2) states in
  setCurrentState Idle.

(** Every destination of the table and the initial state are states of the
    table. *)
Definition closed
    (states : list (string * list (string * (gmap string value → bool))))
    (Idle : string) : bool :=
  forallb (λ st, forallb (λ e, bool_decide (e.1 ∈ states.*1)) st.2) states
  && bool_decide (Idle ∈ states.*1).

(** The names under which a registry with the prototype of an object
    literal yields a value without holding it. *)
Definition object_names : list string :=
  "__proto__" :: "constructor" :: object_methods.

(** Every destination of the table and the initial state are states of the
    table or names that such a registry inherits. *)
Definition resolved
    (states : list (string * list (string * (gmap string value → bool))))
    (Idle : string) : bool :=
  forallb (λ st, forallb (λ e,
      bool_decide (e.1 ∈ states.*1 ∨ e.1 ∈ object_names)) st.2) states
  && bool_decide (Idle ∈ states.*1 ∨ Idle ∈ object_names).

(** The transitions of the state registered under a name, in list order,
    each as its destination name and its guard. *)
Definition layout (m : FiniteStateMachine) (origin : string)
    : option (list (option string * option (gmap string value → bool))) :=
  a ← registered m origin; st ← state_objects m !! a;
  Some ((λ t, (destination m t, guard_of m t)) <$> _transitions st).

(** A small table in the shape of [Config.states]. *)
Definition on_floor (v : gmap string value) : bool :=
  strict_eq (prop v "isOnFloor") (VBool true).

Definition airborne (v : gmap string value) : bool := negb (on_floor v).

Definition player_states
    : list (string * list (string * (gmap string value → bool))) :=
  [ ("Idle", [("Running", moving); ("Jumping", airborne)]);
    ("Running", [("Idle", still); ("Jumping", airborne)]);
    ("Jumping", [("Idle", on_floor)]) ].

(** ** Rectangle geometry

    The numbers of JavaScript are the binary64 floats of IEEE 754, here the
    primitive floats: [+], [-] and [*] round to nearest even, [<], [<=] and
    [===] are the IEEE comparisons (false on NaN, [+0] equal to [-0]).
    [a > b] is [b < a] and [a >= b] is [b <= a].  A method that writes its
    receiver and returns it yields the receiver's new fields. *)

Module Point.
(** The two fields of [Point] (its class is imported by the source). *)
Record t : Type := mk { x : float; y : float }.
End Point.

Module Rectangle.

Record t : Type := mk { x : float; y : float; width : float; height : float }.

(** [get right], [get bottom], [get volume] *)
Definition right (a : t) : float := PrimFloat.add (x a) (width a).
Definition bottom (a : t) : float := PrimFloat.add (y a) (height a).
Definition volume (a : t) : float := PrimFloat.mul (width a) (height a).

(** [!n] for a number: true on [+0], [-0] and NaN. *)
Definition not_ (n : float) : bool :=
  PrimFloat.eqb n PrimFloat.zero || negb (PrimFloat.eqb n n).

(** [get empty] *)
Definition empty (a : t) : bool := not_ (width a) || not_ (height a).

Definition setTo (x y width height : float) (this : t) : t :=
  mk x y width height.

(** [Rectangle.clone]: a new object, or [output] overwritten. *)
Definition clone (a : t) (output : option t) : t :=
  match output with
  | None => mk (x a) (y a) (width a) (height a)
  | Some out => setTo (x a) (y a) (width a) (height a) out
  end.

Definition contains (a : t) (px py : float) : bool :=
  if PrimFloat.leb (width a) PrimFloat.zero
     || PrimFloat.leb (height a) PrimFloat.zero
  then false
  else PrimFloat.leb (x a) px && PrimFloat.ltb px (right a)
       && PrimFloat.leb (y a) py && PrimFloat.ltb py (bottom a).

Definition containsRect (a b : t) : bool :=
  if PrimFloat.ltb (volume b) (volume a) then false
  else PrimFloat.leb (x b) (x a) && PrimFloat.leb (y b) (y a)
       && PrimFloat.ltb (right a) (right b)
       && PrimFloat.ltb (bottom a) (bottom b).

Definition equals (a b : t) : bool :=
  PrimFloat.eqb (x a) (x b) && PrimFloat.eqb (y a) (y b)
  && PrimFloat.eqb (width a) (width b) && PrimFloat.eqb (height a) (height b).

Definition intersects (a b : t) : bool :=
  if PrimFloat.leb (width a) PrimFloat.zero
     || PrimFloat.leb (height a) PrimFloat.zero
     || PrimFloat.leb (width b) PrimFloat.zero
     || PrimFloat.leb (height b) PrimFloat.zero
  then false
  else negb (PrimFloat.ltb (right a) (x b) || PrimFloat.ltb (bottom a) (y b)
             || PrimFloat.ltb (right b) (x a) || PrimFloat.ltb (bottom b) (y a)).

(** The four running extremes of [aabb] and one round of its loop. *)
Record extremes : Type :=
  mk_extremes { xMax : float; xMin : float; yMax : float; yMin : float }.

Definition widen (e : extremes) (point : Point.t) : extremes :=
  let xMax := if PrimFloat.ltb (xMax e) (Point.x point) then Point.x point else xMax e in
  let xMin := if PrimFloat.ltb (Point.x point) (xMin e) then Point.x point else xMin e in
  let yMax := if PrimFloat.ltb (yMax e) (Point.y point) then Point.y point else yMax e in
  let yMin := if PrimFloat.ltb (Point.y point) (yMin e) then Point.y point else yMin e in
  mk_extremes xMax xMin yMax yMin.

Definition aabb (points : list Point.t) (out : t) : t :=
  let e := foldl widen
    (mk_extremes PrimFloat.neg_infinity PrimFloat.infinity
                 PrimFloat.neg_infinity PrimFloat.infinity) points in
  setTo (xMin e) (yMin e)
    (PrimFloat.sub (xMax e) (xMin e)) (PrimFloat.sub (yMax e) (yMin e)) out.

End Rectangle.

(** * Lemmas *)

(** *** Looking a name up *)

(** A [State] comes out of the registry as an own property or, under
    "__proto__", as the prototype that an [addState] installed. *)
Lemma registered_raw m n :
  registered m n =
    match _states m !! n with
    | Some s => Some s
    | None => if bool_decide (n = "__proto__") then _states_proto m else None
    end.
Proof.
  unfold registered, lookup_states, inherited.
  destruct (_states m !! n); [done|].
  destruct (_states_proto m) as [s|]; case_bool_decide; try done.
  - destruct (state_objects m !! s) as [st|];
      [by destruct (state_member st n) | by destruct (object_member n)].
  - by destruct (object_member n).
Qed.

Lemma lookup_registered m n s :
  lookup_states m n = Some (StateRef s) ↔ registered m n = Some s.
Proof.
  unfold registered. destruct (lookup_states m n) as [[s'|f]|];
    split; intros H; try done; by injection H as ->.
Qed.

Lemma registered_ext m m' n :
  _states m' = _states m → _states_proto m' = _states_proto m →
  registered m' n = registered m n.
Proof. intros H1 H2. by rewrite !registered_raw, H1, H2. Qed.

Lemma registered_own m n s : _states m !! n = Some s → registered m n = Some s.
Proof. intros H. by rewrite registered_raw, H. Qed.

Lemma getState_Normal n m r m' :
  getState n m = (Normal r, m') →
  m' = m ∧ lookup_states m n = Some r ∧ truthy r = true.
Proof.
  unfold getState. destruct (lookup_states m n) as [r'|]; [|done].
  destruct (truthy r') eqn:E; [|done]. by intros [= <- <-].
Qed.

Lemma getState_Throw n m e m' :
  getState n m = (Throw e, m') → m' = m ∧ e = StateNotFound n.
Proof.
  unfold getState. destruct (lookup_states m n) as [r'|];
    [destruct (truthy r')|]; by intros [= <- <-].
Qed.

Lemma getState_registered n m s :
  registered m n = Some s → getState n m = (Normal (StateRef s), m).
Proof. intros H. apply lookup_registered in H. unfold getState. by rewrite H. Qed.

Lemma getState_unknown n m :
  lookup_states m n = None → getState n m = (Throw (StateNotFound n), m).
Proof. unfold getState. by intros ->. Qed.

(** *** What each method does to the machine *)

Lemma from_registered origin m a :
  registered m origin = Some a →
  from origin m =
    (Normal (length (transition_objects m)),
     set_state_objects (alter (push_transition (length (transition_objects m))) a)
       (set_transition_objects
          (λ h, h ++ [mkTransition always_true (Some (StateRef a)) None]) m)).
Proof.
  intros Ha. unfold from, bind. by rewrite !(getState_registered origin m a Ha).
Qed.

(** [from] throws and leaves the machine as it was unless the name yields a
    [State]. *)
Lemma from_unregistered origin m :
  registered m origin = None →
  ∃ e, from origin m = (Throw e, m).
Proof.
  intros Hn. unfold from, bind.
  destruct (getState origin m) as [[r|e] m'] eqn:E.
  - apply getState_Normal in E as E'. destruct E' as (-> & Hr & _).
    rewrite E. destruct r as [s|f]; [|by eexists].
    apply lookup_registered in Hr. congruence.
  - apply getState_Throw in E as [-> _]. by eexists.
Qed.

Lemma from_cases origin m :
  (∃ e, from origin m = (Throw e, m)) ∨
  ∃ a, registered m origin = Some a ∧
    from origin m =
      (Normal (length (transition_objects m)),
       set_state_objects (alter (push_transition (length (transition_objects m))) a)
         (set_transition_objects
            (λ h, h ++ [mkTransition always_true (Some (StateRef a)) None]) m)).
Proof.
  destruct (registered m origin) as [a|] eqn:Ha.
  - right. exists a. split; [done|]. by apply from_registered.
  - left. by apply from_unregistered.
Qed.

Lemma to_cases t n m :
  to t n m = (Throw (StateNotFound n), m) ∨
  ∃ r, lookup_states m n = Some r ∧ truthy r = true ∧
    to t n m = (Normal t, set_transition_objects (alter (bind_toState r) t) m).
Proof.
  unfold to, bind. destruct (getState n m) as [[r|e] m'] eqn:E.
  - apply getState_Normal in E as (-> & Hr & Ht). right. by exists r.
  - apply getState_Throw in E as [-> ->]. by left.
Qed.

Lemma setCurrentState_cases n m :
  setCurrentState n m = (Throw (StateNotFound n), m) ∨
  ∃ r, lookup_states m n = Some r ∧ truthy r = true ∧
    setCurrentState n m = (Normal tt, set_currentState (Some r) m).
Proof.
  unfold setCurrentState, bind. destruct (getState n m) as [[r|e] m'] eqn:E.
  - apply getState_Normal in E as (-> & Hr & Ht). right. by exists r.
  - apply getState_Throw in E as [-> ->]. by left.
Qed.

(** A pass leaves the machine as it is or assigns [currentState] a value
    taken from the registry; nothing else is written. *)
Lemma updateInternalState_cases m :
  (updateInternalState m).2 = m ∨
  ∃ n r, lookup_states m n = Some r ∧ truthy r = true ∧
    updateInternalState m = (Normal tt, set_currentState (Some r) m).
Proof.
  unfold updateInternalState, bind, this_currentState, receiver,
    checkForTransitions, bind, the_State.
  destruct (currentState m) as [[s|f]|]; [|by left|by left].
  destruct (state_objects m !! s) as [st|]; [|by left].
  destruct (first_valid _ _ _) as [[d|]|e]; [|by left|by left].
  destruct (truthy d); [|by left].
  assert (H : ∀ n0, (setCurrentState n0 m).2 = m ∨
    ∃ n r, lookup_states m n = Some r ∧ truthy r = true ∧
      setCurrentState n0 m = (Normal tt, set_currentState (Some r) m)).
  { intros n. destruct (setCurrentState_cases n m) as [-> | (r & Hr & Ht & ->)];
      [by left | right; by exists n, r]. }
  destruct d as [d|f]; simpl.
  - unfold bind, the_State. destruct (state_objects m !! d) as [sd|]; [|by left].
    apply H.
  - unfold bind, ret. apply H.
Qed.

Lemma setProperty_unfold k v m :
  setProperty k v m = updateInternalState (set_values <[k := v]> m).
Proof. reflexivity. Qed.

Lemma setProperties_unfold o m :
  setProperties o m = updateInternalState (set_values (write_all o) m).
Proof. reflexivity. Qed.

(** What one call does to the registry: only [addState] writes it. *)
Lemma exec_registry c m :
  _states (exec c m) =
    match c with
    | AddState n =>
        if bool_decide (n = "__proto__") then _states m
        else <[n := length (state_objects m)]> (_states m)
    | _ => _states m
    end ∧
  _states_proto (exec c m) =
    match c with
    | AddState n =>
        if bool_decide (n = "__proto__") then Some (length (state_objects m))
        else _states_proto m
    | _ => _states_proto m
    end.
Proof.
  destruct c as [n|n|t n|t g|n|k v|o]; simpl; try done.
  - by case_bool_decide.
  - destruct (from_cases n m) as [[e ->] | (a & _ & ->)]; done.
  - destruct (to_cases t n m) as [-> | (r & _ & _ & ->)]; done.
  - destruct (setCurrentState_cases n m) as [-> | (r & _ & _ & ->)]; done.
  - rewrite setProperty_unfold.
    destruct (updateInternalState_cases (set_values <[k:=v]> m))
      as [-> | (n & l & _ & _ & ->)]; done.
  - rewrite setProperties_unfold.
    destruct (updateInternalState_cases (set_values (write_all o) m))
      as [-> | (n & l & _ & _ & ->)]; done.
Qed.

Lemma exec_registered c m n :
  match c with AddState _ => false | _ => true end = true →
  registered (exec c m) n = registered m n.
Proof.
  intros Hc. destruct (exec_registry c m) as [H1 H2].
  apply registered_ext; [rewrite H1 | rewrite H2]; by destruct c.
Qed.

(** *** Well-formedness is kept *)

Lemma wf_new : wf new_FiniteStateMachine.
Proof.
  split; simpl; intros *; try rewrite lookup_empty; try rewrite lookup_nil;
    congruence.
Qed.

Lemma wf_registry m n s :
  wf m → registered m n = Some s →
  ∃ st, state_objects m !! s = Some st ∧ name st = n.
Proof.
  intros Hwf. rewrite registered_raw.
  destruct (_states m !! n) as [s'|] eqn:E.
  - intros [= <-]. by destruct (wf_own m Hwf _ _ E).
  - case_bool_decide; [|done]. subst. apply (wf_proto m Hwf).
Qed.

Lemma wf_set_values f m : wf m → wf (set_values f m).
Proof. intros [H1 H2 H3 H4 H5 H6]. split; simpl; eauto. Qed.

(** Assigning [currentState] what the registry yields under some name. *)
Lemma wf_set_currentState m n r :
  wf m → lookup_states m n = Some r → wf (set_currentState (Some r) m).
Proof.
  intros Hwf Hr. pose proof Hwf as [H1 H2 H3 H4 H5 H6]. split; simpl; eauto.
  intros s [= ->]. apply lookup_registered in Hr.
  destruct (wf_registry m n s Hwf Hr) as (st & Hst & _). by eapply lookup_lt_Some.
Qed.

Lemma addState_unfold n m :
  addState n m =
    (Normal tt,
     (if bool_decide (n = "__proto__")
      then set__states_proto (Some (length (state_objects m)))
      else set__states <[n := length (state_objects m)]>)
       (set_state_objects (λ h, h ++ [mkState n []]) m)).
Proof. reflexivity. Qed.

Lemma wf_no_own_proto m : wf m → _states m !! "__proto__" = None.
Proof.
  intros Hwf. destruct (_states m !! "__proto__") as [s|] eqn:E; [|done].
  by destruct (wf_own m Hwf _ _ E).
Qed.

(** The name just given to [addState] yields the new object. *)
Lemma registered_addState_new n m :
  wf m → registered (addState n m).2 n = Some (length (state_objects m)).
Proof.
  intros Hwf. rewrite addState_unfold, registered_raw. simpl.
  case_bool_decide as Hn; simpl.
  - subst. by rewrite (wf_no_own_proto m Hwf).
  - by rewrite lookup_insert_eq.
Qed.

(** Any other name yields the [State] it did. *)
Lemma registered_addState_other n m n' :
  n' ≠ n → registered (addState n m).2 n' = registered m n'.
Proof.
  intros Hne. rewrite addState_unfold, !registered_raw. simpl.
  case_bool_decide as Hn; simpl.
  - subst. by rewrite bool_decide_eq_false_2.
  - by rewrite lookup_insert_ne.
Qed.

Lemma registered_addState_mono n m n' :
  wf m → is_Some (registered m n') → is_Some (registered (addState n m).2 n').
Proof.
  intros Hwf H. destruct (decide (n' = n)) as [-> | Hne].
  - by rewrite registered_addState_new.
  - by rewrite registered_addState_other.
Qed.

Lemma wf_addState n m : wf m → wf (addState n m).2.
Proof.
  intros Hwf. pose proof Hwf as [H1 H2 H3 H4 H5 H6]. split.
  - rewrite addState_unfold. intros n' s. simpl. case_bool_decide as Hn; simpl.
    + intros Hs. destruct (H1 _ _ Hs) as (Hne & st & Hst & Hname).
      split; [done|]. exists st. split; [by apply lookup_app_l_Some | done].
    + rewrite lookup_insert. case_decide as Hn'.
      * intros [= <-]. subst n'. split; [done|]. exists (mkState n []).
        by rewrite list_lookup_middle.
      * intros Hs. destruct (H1 _ _ Hs) as (Hne & st & Hst & Hname).
        split; [done|]. exists st. split; [by apply lookup_app_l_Some | done].
  - rewrite addState_unfold. intros s. simpl. case_bool_decide as Hn; simpl.
    + intros [= <-]. subst n. exists (mkState "__proto__" []).
      by rewrite list_lookup_middle.
    + intros Hs. destruct (H2 _ Hs) as (st & Hst & Hname).
      exists st. split; [by apply lookup_app_l_Some | done].
  - intros s st Hst.
    assert (Hst' : state_objects m !! s = Some st ∨ st = mkState n []).
    { rewrite addState_unfold in Hst.
      assert (Hl : (state_objects m ++ [mkState n []]) !! s = Some st)
        by (revert Hst; by case_bool_decide).
      apply lookup_app_Some in Hl as [Hl | [_ Hl]]; [by left|].
      apply list_lookup_singleton_Some in Hl as [_ <-]. by right. }
    destruct Hst' as [Hold | ->].
    + apply registered_addState_mono; eauto.
    + cbn [name]. by rewrite registered_addState_new.
  - rewrite addState_unfold. intros s st t Hst Ht.
    assert (Hl : (state_objects m ++ [mkState n []]) !! s = Some st)
      by (revert Hst; by case_bool_decide).
    assert (Hlen : ∀ x, x < length (transition_objects m) →
      x < length (transition_objects
        ((if bool_decide (n = "__proto__")
          then set__states_proto (Some (length (state_objects m)))
          else set__states <[n := length (state_objects m)]>)
           (set_state_objects (λ h, h ++ [mkState n []]) m))))
      by (intros x; by case_bool_decide).
    apply Hlen.
    apply lookup_app_Some in Hl as [Hl | [_ Hl]]; [eauto |].
    apply list_lookup_singleton_Some in Hl as [_ <-]. simpl in Ht.
    by apply elem_of_nil in Ht.
  - rewrite addState_unfold. intros t tr s Htr Hs.
    assert (Htr' : transition_objects m !! t = Some tr)
      by (revert Htr; by case_bool_decide).
    specialize (H5 _ _ _ Htr' Hs).
    case_bool_decide; simpl; rewrite length_app; lia.
  - rewrite addState_unfold. intros s Hs.
    assert (Hs' : currentState m = Some (StateRef s))
      by (revert Hs; by case_bool_decide).
    specialize (H6 _ Hs').
    case_bool_decide; simpl; rewrite length_app; lia.
Qed.

Lemma wf_when t g m : wf m → wf (when t g m).2.
Proof.
  intros [H1 H2 H3 H4 H5 H6]. split; simpl; eauto.
  - intros s st t' Hst Ht'. rewrite length_alter. eauto.
  - intros t' tr s. rewrite list_lookup_alter. case_decide.
    + subst t'. destruct (transition_objects m !! t) eqn:E; simpl; [|done].
      intros [= <-]. simpl. eauto.
    + eauto.
Qed.

Lemma wf_to t n m : wf m → wf (to t n m).2.
Proof.
  intros Hwf. destruct (to_cases t n m) as [-> | (r & Hr & _ & ->)]; [done|].
  pose proof Hwf as [H1 H2 H3 H4 H5 H6]. split; simpl; eauto.
  - intros s' st t' Hst Ht'. rewrite length_alter. eauto.
  - intros t' tr s'. rewrite list_lookup_alter. case_decide.
    + subst t'. destruct (transition_objects m !! t) eqn:E; simpl; [|done].
      intros [= <-]. simpl. intros [= ->]. apply lookup_registered in Hr.
      destruct (wf_registry m _ _ Hwf Hr) as (st & Hst & _).
      by eapply lookup_lt_Some.
    + eauto.
Qed.

Lemma wf_from n m : wf m → wf (from n m).2.
Proof.
  intros Hwf. destruct (from_cases n m) as [[e ->] | (a & Ha & ->)]; [done|].
  pose proof Hwf as [H1 H2 H3 H4 H5 H6]. split; simpl.
  - intros n' s' Hs'. destruct (H1 _ _ Hs') as (Hne & st & Hst & Hname).
    split; [done|].
    rewrite list_lookup_alter. case_decide; subst; rewrite Hst; simpl; eauto.
  - intros s' Hs'. destruct (H2 _ Hs') as (st & Hst & Hname).
    rewrite list_lookup_alter. case_decide; subst; rewrite Hst; simpl; eauto.
  - intros s' st Hst.
    assert (Hn : ∃ st0, state_objects m !! s' = Some st0 ∧ name st0 = name st).
    { rewrite list_lookup_alter in Hst. case_decide; [|eauto]. subst s'.
      destruct (state_objects m !! a) eqn:E; simpl in Hst; [|done].
      injection Hst as <-. eauto. }
    destruct Hn as (st0 & Hst0 & <-).
    erewrite registered_ext; [by eapply H3 | done | done].
  - intros s' st t. rewrite length_app. simpl.
    rewrite list_lookup_alter. case_decide.
    + subst s'. destruct (state_objects m !! a) eqn:E; simpl; [|done].
      intros [= <-]. simpl. rewrite elem_of_app, list_elem_of_singleton.
      intros [Ht | ->]; [|lia]. specialize (H4 _ _ _ E Ht). lia.
    + intros Hst Ht. specialize (H4 _ _ _ Hst Ht). lia.
  - intros t tr s'. rewrite length_alter.
    intros Htr. apply lookup_app_Some in Htr as [Htr | [_ Htr]]; [eauto |].
    apply list_lookup_singleton_Some in Htr as [_ <-]. done.
  - intros s'. rewrite length_alter. eauto.
Qed.

Lemma wf_setCurrentState n m : wf m → wf (setCurrentState n m).2.
Proof.
  intros Hwf. destruct (setCurrentState_cases n m) as [-> | (r & Hr & _ & ->)];
    [done|]. by eapply wf_set_currentState.
Qed.

Lemma wf_updateInternalState m : wf m → wf (updateInternalState m).2.
Proof.
  intros Hwf.
  destruct (updateInternalState_cases m) as [-> | (n & r & Hr & _ & ->)];
    [done|]. by eapply wf_set_currentState.
Qed.

Lemma wf_exec c m : wf m → wf (exec c m).
Proof.
  destruct c; simpl; intros Hwf.
  - by apply wf_addState.
  - by apply wf_from.
  - by apply wf_to.
  - by apply wf_when.
  - by apply wf_setCurrentState.
  - rewrite setProperty_unfold. by apply wf_updateInternalState, wf_set_values.
  - rewrite setProperties_unfold. by apply wf_updateInternalState, wf_set_values.
Qed.

Lemma run_snoc cs c m : run (cs ++ [c]) m = exec c (run cs m).
Proof. unfold run. by rewrite foldl_app. Qed.

Lemma run_cons c cs m : run (c :: cs) m = run cs (exec c m).
Proof. reflexivity. Qed.

Lemma wf_run cs m : wf m → wf (run cs m).
Proof.
  revert m. induction cs as [|c cs IH]; intros m Hwf; [done|].
  rewrite run_cons. by apply IH, wf_exec.
Qed.

Lemma reachable_wf m : reachable m → wf m.
Proof. intros [cs ->]. apply wf_run, wf_new. Qed.

Lemma reachable_exec c m : reachable m → reachable (exec c m).
Proof. intros [cs ->]. exists (cs ++ [c]). by rewrite run_snoc. Qed.

Lemma reachable_run cs m : reachable m → reachable (run cs m).
Proof.
  revert m. induction cs as [|c cs IH]; intros m H; [done|].
  rewrite run_cons. by apply IH, reachable_exec.
Qed.

(** *** The evaluation pass *)

Lemma first_valid_none heap vals ts :
  (∀ t, t ∈ ts → t < length heap) →
  none_valid heap vals ts = true →
  first_valid heap vals ts = Normal None.
Proof.
  induction ts as [|t ts IH]; simpl; [done|].
  intros Hin Hnone. apply andb_true_iff in Hnone as [Ht Hts].
  unfold guard_holds in Ht.
  destruct (lookup_lt_is_Some_2 heap t) as [tr Htr].
  { apply Hin. left. }
  rewrite Htr in Ht |- *. apply negb_true_iff in Ht. rewrite Ht.
  apply IH; [|done]. intros t' Ht'. apply Hin. by right.
Qed.

Lemma first_valid_hit heap vals pre t post tr :
  (∀ t', t' ∈ pre → t' < length heap) →
  none_valid heap vals pre = true →
  heap !! t = Some tr →
  validation tr vals = true →
  first_valid heap vals (pre ++ t :: post) = Normal (toState tr).
Proof.
  intros Hin Hnone Htr Hg.
  induction pre as [|p pre IH]; simpl.
  - by rewrite Htr, Hg.
  - simpl in Hnone. apply andb_true_iff in Hnone as [Hp Hpre].
    unfold guard_holds in Hp.
    destruct (lookup_lt_is_Some_2 heap p) as [trp Htrp].
    { apply Hin. left. }
    rewrite Htrp in Hp |- *. apply negb_true_iff in Hp. rewrite Hp.
    apply IH; [|done]. intros t' Ht'. apply Hin. by right.
Qed.

Lemma first_valid_total heap vals ts :
  (∀ t, t ∈ ts → t < length heap) →
  first_valid heap vals ts = Normal None ∨
  ∃ t tr, t ∈ ts ∧ heap !! t = Some tr ∧ validation tr vals = true ∧
    first_valid heap vals ts = Normal (toState tr).
Proof.
  induction ts as [|t ts IH]; intros Hin; simpl; [by left|].
  destruct (lookup_lt_is_Some_2 heap t) as [tr Htr]; [apply Hin; left|].
  rewrite Htr. destruct (validation tr vals) eqn:Hg.
  - right. exists t, tr. split; [left|done].
  - destruct IH as [IH | (t' & tr' & Ht' & Htr' & Hg' & IH)].
    + intros t' Ht'. apply Hin. by right.
    + by left.
    + right. exists t', tr'. split; [by right|done].
Qed.

Lemma updateInternalState_stays m s st :
  currentState m = Some (StateRef s) →
  state_objects m !! s = Some st →
  first_valid (transition_objects m) (values m) (_transitions st) = Normal None →
  updateInternalState m = (Normal tt, m).
Proof.
  intros Hc Hs Hf.
  unfold updateInternalState, bind, this_currentState, receiver,
    checkForTransitions, bind, the_State.
  by rewrite Hc, Hs, Hf.
Qed.

Lemma updateInternalState_moves m s st d sd l :
  currentState m = Some (StateRef s) →
  state_objects m !! s = Some st →
  first_valid (transition_objects m) (values m) (_transitions st)
    = Normal (Some (StateRef d)) →
  state_objects m !! d = Some sd →
  registered m (name sd) = Some l →
  updateInternalState m = (Normal tt, set_currentState (Some (StateRef l)) m).
Proof.
  intros Hc Hs Hf Hd Hl.
  unfold updateInternalState, bind, this_currentState, receiver,
    checkForTransitions, bind, the_State.
  rewrite Hc, Hs, Hf. simpl. unfold bind, the_State. rewrite Hd.
  unfold ret, setCurrentState, bind. simpl.
  by rewrite (getState_registered _ _ _ Hl).
Qed.

Lemma updateInternalState_null m :
  currentState m = None → updateInternalState m = (Throw TypeError, m).
Proof.
  intros Hc. unfold updateInternalState, bind, this_currentState.
  by rewrite Hc.
Qed.

Lemma bound_to_States_elem m ts t tr :
  bound_to_States m ts = true → t ∈ ts →
  transition_objects m !! t = Some tr →
  toState tr = None ∨ ∃ d, toState tr = Some (StateRef d).
Proof.
  intros Hb Ht Htr. unfold bound_to_States in Hb.
  rewrite forallb_forall in Hb. specialize (Hb t).
  unfold toState_of in Hb. rewrite Htr in Hb. simpl in Hb.
  destruct (toState tr) as [[d|f]|]; [right; by exists d | | by left].
  discriminate Hb. by apply list_elem_of_In.
Qed.

(** On a well-formed machine whose current state is a [State] with no
    transition bound to a value that is not one, the pass returns: it stays,
    or it switches to the [State] that the registry yields under the name of
    the destination of a transition whose guard holds. *)
Lemma pass_total m s st :
  wf m →
  currentState m = Some (StateRef s) →
  state_objects m !! s = Some st →
  bound_to_States m (_transitions st) = true →
  updateInternalState m = (Normal tt, m) ∨
  ∃ t tr d sd l sl, t ∈ _transitions st ∧
    transition_objects m !! t = Some tr ∧ validation tr (values m) = true ∧
    toState tr = Some (StateRef d) ∧ state_objects m !! d = Some sd ∧
    registered m (name sd) = Some l ∧
    state_objects m !! l = Some sl ∧ name sl = name sd ∧
    updateInternalState m = (Normal tt, set_currentState (Some (StateRef l)) m).
Proof.
  intros Hwf Hc Hs Hb.
  destruct (first_valid_total (transition_objects m) (values m) (_transitions st))
    as [Hf | (t & tr & Ht & Htr & Hg & Hf)].
  - intros t Ht. by apply (wf_lists m Hwf s st).
  - left. by apply (updateInternalState_stays m s st).
  - destruct (bound_to_States_elem m _ t tr Hb Ht Htr) as [Hd | [d Hd]].
    + left. apply (updateInternalState_stays m s st); [done|done|].
      by rewrite Hf, Hd.
    + destruct (lookup_lt_is_Some_2 (state_objects m) d) as [sd Hsd];
        [by apply (wf_toState m Hwf t tr)|].
      destruct (wf_named m Hwf _ _ Hsd) as [l Hl].
      destruct (wf_registry m _ _ Hwf Hl) as (sl & Hsl & Hname).
      right. exists t, tr, d, sd, l, sl. repeat (split; [done|]).
      apply (updateInternalState_moves m s st d sd l); try done.
      by rewrite Hf, Hd.
Qed.

(** *** Writing a batch *)

Lemma write_list_absent (l : list (string * value)) (vals : gmap string value) k :
  k ∉ l.*1 →
  foldl (λ vals kv, <[kv.1 := kv.2]> vals) vals l !! k = vals !! k.
Proof.
  revert vals. induction l as [|[k' v'] l IH]; intros vals Hk; simpl; [done|].
  simpl in Hk. apply not_elem_of_cons in Hk as [Hne Hk].
  rewrite IH by done. by rewrite lookup_insert_ne.
Qed.

Lemma write_list_present (l : list (string * value)) (vals : gmap string value) k v :
  NoDup l.*1 → (k, v) ∈ l →
  foldl (λ vals kv, <[kv.1 := kv.2]> vals) vals l !! k = Some v.
Proof.
  revert vals. induction l as [|[k' v'] l IH]; intros vals Hnd Hin; simpl.
  - by apply elem_of_nil in Hin.
  - simpl in Hnd. apply NoDup_cons in Hnd as [Hk' Hnd].
    apply elem_of_cons in Hin as [[= <- <-] | Hin].
    + rewrite write_list_absent by done. simpl. apply lookup_insert_eq.
    + by apply IH.
Qed.

(** The loop over the keys leaves the bag with every entry of the batch
    written over what it held. *)
Lemma write_all_union (objects vals : gmap string value) :
  write_all objects vals = objects ∪ vals.
Proof.
  apply map_eq. intros k. unfold write_all.
  destruct (objects !! k) as [v|] eqn:E.
  - rewrite lookup_union_l' by (by rewrite E). rewrite E.
    apply write_list_present; [apply NoDup_fst_map_to_list|].
    by apply elem_of_map_to_list.
  - rewrite lookup_union_r by done. apply write_list_absent.
    intros Hk. apply list_elem_of_fmap in Hk as ([k' v] & -> & Hin).
    apply elem_of_map_to_list in Hin. simpl in E. congruence.
Qed.

(** *** What a call writes *)

Lemma addState_frame n m :
  state_objects (addState n m).2 = state_objects m ++ [mkState n []] ∧
  transition_objects (addState n m).2 = transition_objects m ∧
  values (addState n m).2 = values m ∧
  currentState (addState n m).2 = currentState m.
Proof. rewrite addState_unfold. by case_bool_decide. Qed.

Lemma run_unregistered cs m n :
  never_added n cs = true →
  _states m !! n = None → _states (run cs m) !! n = None.
Proof.
  revert m. induction cs as [|c cs IH]; intros m Hcs Hn; [done|].
  simpl in Hcs. apply andb_true_iff in Hcs as [Hc Hcs]. rewrite run_cons.
  apply IH; [done|]. rewrite (proj1 (exec_registry c m)).
  destruct c; try done. apply bool_decide_eq_true in Hc.
  case_bool_decide; [done|]. by rewrite lookup_insert_ne.
Qed.

Lemma exec_keeps_null c m :
  match c with SetCurrentState _ => false | _ => true end = true →
  currentState m = None → currentState (exec c m) = None.
Proof.
  intros Hc Hm. destruct c as [n|n|t n|t g|n|k v|o]; cbn [exec]; try done.
  - by rewrite (proj2 (proj2 (proj2 (addState_frame n m)))).
  - destruct (from_cases n m) as [[e ->] | (a & _ & ->)]; done.
  - destruct (to_cases t n m) as [-> | (r & _ & _ & ->)]; done.
  - rewrite setProperty_unfold, updateInternalState_null; done.
  - rewrite setProperties_unfold, updateInternalState_null; done.
Qed.

Lemma run_keeps_null cs m :
  never_set cs = true →
  currentState m = None → currentState (run cs m) = None.
Proof.
  revert m. induction cs as [|c cs IH]; intros m Hcs Hm; [done|].
  simpl in Hcs. apply andb_true_iff in Hcs as [Hc Hcs].
  rewrite run_cons. apply IH; [done|]. by apply exec_keeps_null.
Qed.


Lemma exec_current_Some c m :
  is_Some (currentState m) → is_Some (currentState (exec c m)).
Proof.
  intros Hc. destruct c as [n|n|t n|t g|n|k v|o]; cbn [exec]; try done.
  - by rewrite (proj2 (proj2 (proj2 (addState_frame n m)))).
  - destruct (from_cases n m) as [[e ->] | (a & _ & ->)]; done.
  - destruct (to_cases t n m) as [-> | (r & _ & _ & ->)]; done.
  - destruct (setCurrentState_cases n m) as [-> | (r & _ & _ & ->)]; done.
  - rewrite setProperty_unfold.
    destruct (updateInternalState_cases (set_values <[k:=v]> m))
      as [-> | (n & l & _ & _ & ->)]; done.
  - rewrite setProperties_unfold.
    destruct (updateInternalState_cases (set_values (write_all o) m))
      as [-> | (n & l & _ & _ & ->)]; done.
Qed.

(** What one call does to the [State] objects. *)
Lemma exec_state_objects c m s st :
  state_objects m !! s = Some st →
  ∃ st', state_objects (exec c m) !! s = Some st' ∧ name st' = name st ∧
    _transitions st `prefix_of` _transitions st'.
Proof.
  intros Hs. destruct c as [n|n|t n|t g|n|k v|o]; cbn [exec].
  - exists st. rewrite (proj1 (addState_frame n m)).
    split; [by apply lookup_app_l_Some|done].
  - destruct (from_cases n m) as [[e ->] | (a & _ & ->)]; [by exists st|].
    simpl. rewrite list_lookup_alter. case_decide.
    + subst. rewrite Hs. simpl. eexists. split; [done|]. split; [done|].
      by apply prefix_app_r.
    + by exists st.
  - destruct (to_cases t n m) as [-> | (r & _ & _ & ->)]; by exists st.
  - by exists st.
  - destruct (setCurrentState_cases n m) as [-> | (r & _ & _ & ->)]; by exists st.
  - rewrite setProperty_unfold.
    destruct (updateInternalState_cases (set_values <[k:=v]> m))
      as [-> | (n & l & _ & _ & ->)]; by exists st.
  - rewrite setProperties_unfold.
    destruct (updateInternalState_cases (set_values (write_all o) m))
      as [-> | (n & l & _ & _ & ->)]; by exists st.
Qed.

Lemma exec_registered_mono c m n :
  wf m → is_Some (registered m n) → is_Some (registered (exec c m) n).
Proof.
  intros Hwf H. destruct c as [n'|n'|t n'|t g|n'|k v|o];
    try (by rewrite exec_registered).
  by apply registered_addState_mono.
Qed.

Lemma run_registered_mono cs m n :
  wf m → is_Some (registered m n) → is_Some (registered (run cs m) n).
Proof.
  revert m. induction cs as [|c cs IH]; intros m Hwf H; [done|].
  rewrite run_cons. apply IH; [by apply wf_exec | by apply exec_registered_mono].
Qed.

Lemma run_registered cs m n :
  wf m → never_added n cs = false → is_Some (registered (run cs m) n).
Proof.
  revert m. induction cs as [|c cs IH]; intros m Hwf H; [done|].
  simpl in H. rewrite run_cons. apply andb_false_iff in H as [H | H].
  - apply run_registered_mono; [by apply wf_exec|]. destruct c; try done.
    apply bool_decide_eq_false in H. apply dec_stable in H. subst.
    cbn [exec]. by rewrite registered_addState_new.
  - apply IH; [by apply wf_exec | done].
Qed.

(** *** The current state and the registry *)

Lemma current_registered_set m n s :
  wf m → lookup_states m n = Some (StateRef s) →
  current_registered (set_currentState (Some (StateRef s)) m).
Proof.
  intros Hwf Hs r [= <-]. pose proof Hs as Hr. apply lookup_registered in Hr.
  destruct (wf_registry m _ _ Hwf Hr) as (st & Hst & <-). by exists s, st.
Qed.

Lemma first_valid_heap heap vals ts r :
  first_valid heap vals ts = Normal (Some r) →
  ∃ t tr, heap !! t = Some tr ∧ toState tr = Some r.
Proof.
  induction ts as [|t ts IH]; simpl; [done|].
  destruct (heap !! t) as [tr|] eqn:E; [|done].
  destruct (validation tr vals); [|done]. intros [= H]. by exists t, tr.
Qed.

(** A pass on a machine none of whose transitions is bound to a value that
    is not a [State] leaves the current state registered. *)
Lemma current_registered_pass m :
  wf m → destinations_are_States m → current_registered m →
  current_registered (updateInternalState m).2.
Proof.
  intros Hwf Hd Hcur.
  destruct (currentState m) as [[s|f]|] eqn:Hc.
  - destruct (lookup_lt_is_Some_2 (state_objects m) s) as [st Hs];
      [by apply (wf_current m Hwf)|].
    destruct (pass_total m s st Hwf Hc Hs)
      as [-> | (t & tr & d & sd & l & sl & _ & _ & _ & _ & _ & Hl & _ & _ & ->)];
      [|done|].
    + unfold bound_to_States. apply forallb_forall. intros t _.
      unfold toState_of. destruct (transition_objects m !! t) as [tr|] eqn:E;
        simpl; [|done].
      destruct (toState tr) as [[d|f]|] eqn:Et; try done.
      by destruct (Hd t tr f E).
    + simpl. apply lookup_registered in Hl.
      by apply (current_registered_set m (name sd) l).
  - destruct (Hcur _ Hc) as (s & st & ? & _). done.
  - by rewrite updateInternalState_null.
Qed.

Lemma current_registered_exec c m :
  wf m → keeps_current c m = true →
  current_registered m ∧ destinations_are_States m →
  current_registered (exec c m) ∧ destinations_are_States (exec c m).
Proof.
  intros Hwf Hkeep [Hcur Hd].
  destruct c as [n|n|t n|t g|n|k v|o]; cbn [exec keeps_current] in *.
  - destruct (addState_frame n m) as (Hso & Hto & _ & Hc). split.
    + intros r Hr. rewrite Hc in Hr.
      destruct (Hcur _ Hr) as (s & st & -> & Hst & Hreg).
      exists s, st. split; [done|]. rewrite Hso.
      split; [by apply lookup_app_l_Some|].
      apply lookup_registered. rewrite registered_addState_other;
        [by apply lookup_registered|].
      intros Heq. unfold is_, bind, this_currentState, the_name, bind,
        the_State, ret in Hkeep. rewrite Hr, Hst in Hkeep.
      by rewrite bool_decide_eq_true_2 in Hkeep.
    + intros t tr f. rewrite Hto. apply Hd.
  - destruct (from_cases n m) as [[e ->] | (a & Ha & ->)]; [done|]. split.
    + intros r Hr. simpl in Hr.
      destruct (Hcur _ Hr) as (s & st & -> & Hst & Hreg).
      assert (Hst' : ∃ st', alter (push_transition (length (transition_objects m)))
                              a (state_objects m) !! s = Some st' ∧
                            name st' = name st).
      { rewrite list_lookup_alter. case_decide; subst; rewrite Hst; simpl; eauto. }
      destruct Hst' as (st' & Hst' & Hname). exists s, st'.
      split; [done|]. split; [done|]. rewrite Hname.
      apply lookup_registered. erewrite registered_ext;
        [by apply lookup_registered | done | done].
    + intros t tr f. simpl. intros Htr.
      apply lookup_app_Some in Htr as [Htr | [_ Htr]]; [by eapply Hd|].
      by apply list_lookup_singleton_Some in Htr as [_ <-].
  - destruct (to_cases t n m) as [-> | (r & Hr & Ht & Hto)]; [done|].
    rewrite Hto. split; [done|].
    intros t' tr f. simpl. rewrite list_lookup_alter. case_decide; [|apply Hd].
    subst t'. destruct (transition_objects m !! t) as [tr0|]; simpl; [|done].
    intros [= <-]. simpl. intros [= ->].
    unfold returns_foreign, getState in Hkeep. by rewrite Hr, Ht in Hkeep.
  - split; [done|]. intros t' tr f. simpl. rewrite list_lookup_alter.
    case_decide; [|apply Hd]. subst t'.
    destruct (transition_objects m !! t) as [tr0|] eqn:E; simpl; [|done].
    intros [= <-]. simpl. by eapply Hd.
  - destruct (setCurrentState_cases n m) as [-> | (r & Hr & Ht & ->)]; [done|].
    split; [|done]. destruct r as [s|f].
    + by eapply current_registered_set.
    + unfold returns_foreign, getState in Hkeep. by rewrite Hr, Ht in Hkeep.
  - rewrite setProperty_unfold.
    assert (Hwf' : wf (set_values <[k:=v]> m)) by (by apply wf_set_values).
    split.
    + by apply current_registered_pass.
    + destruct (updateInternalState_cases (set_values <[k:=v]> m))
        as [-> | (n & l & _ & _ & ->)]; done.
  - rewrite setProperties_unfold.
    assert (Hwf' : wf (set_values (write_all o) m)) by (by apply wf_set_values).
    split.
    + by apply current_registered_pass.
    + destruct (updateInternalState_cases (set_values (write_all o) m))
        as [-> | (n & l & _ & _ & ->)]; done.
Qed.

Lemma current_registered_run cs m :
  wf m → all_keep_current cs m = true →
  current_registered m ∧ destinations_are_States m →
  current_registered (run cs m) ∧ destinations_are_States (run cs m).
Proof.
  revert m. induction cs as [|c cs IH]; intros m Hwf Hkeep Hcur; [done|].
  simpl in Hkeep. apply andb_true_iff in Hkeep as [Hc Hrest]. rewrite run_cons.
  apply IH; [by apply wf_exec | done | by apply current_registered_exec].
Qed.

(** *** A pass on a well-formed machine *)

Lemma current_transitions_Some m ts :
  current_transitions m = Some ts →
  ∃ s st, currentState m = Some (StateRef s) ∧ state_objects m !! s = Some st ∧
    _transitions st = ts.
Proof.
  unfold current_transitions. intros H.
  destruct (currentState m) as [[s|f]|]; simpl in H; [|done|done].
  destruct (state_objects m !! s) as [st|] eqn:E; simpl in H; [|done].
  injection H as <-. by exists s, st.
Qed.

Lemma destination_Some m t B :
  destination m t = Some B →
  ∃ tr d sd, transition_objects m !! t = Some tr ∧
    toState tr = Some (StateRef d) ∧
    state_objects m !! d = Some sd ∧ name sd = B.
Proof.
  unfold destination. intros H.
  destruct (transition_objects m !! t) as [tr|]; simpl in H; [|done].
  destruct (toState tr) as [[d|f]|] eqn:Ed; simpl in H; [|done|done].
  destruct (state_objects m !! d) as [sd|] eqn:E; simpl in H; [|done].
  injection H as <-. by exists tr, d, sd.
Qed.

Lemma currentStateName_set m l st :
  state_objects m !! l = Some st →
  currentStateName (set_currentState (Some (StateRef l)) m)
    = (Normal (Named (name st)), set_currentState (Some (StateRef l)) m).
Proof.
  intros Hl. unfold currentStateName, bind, this_currentState, the_name, bind,
    the_State.
  simpl. by rewrite Hl.
Qed.

(** The name of a current [State]. *)
Lemma currentStateName_State m s st :
  currentState m = Some (StateRef s) → state_objects m !! s = Some st →
  currentStateName m = (Normal (Named (name st)), m).
Proof.
  intros Hc Hs. unfold currentStateName, bind, this_currentState, the_name, bind,
    the_State. by rewrite Hc, Hs.
Qed.

(** The pass switches to the destination of the first transition whose guard
    holds, when that destination is a [State]. *)
Lemma pass_fires m pre t post B :
  wf m →
  current_transitions m = Some (pre ++ t :: post) →
  destination m t = Some B →
  guard_holds (transition_objects m) (values m) t = true →
  none_valid (transition_objects m) (values m) pre = true →
  ∃ l, registered m B = Some l ∧
    updateInternalState m = (Normal tt, set_currentState (Some (StateRef l)) m) ∧
    currentStateName (set_currentState (Some (StateRef l)) m)
      = (Normal (Named B), set_currentState (Some (StateRef l)) m).
Proof.
  intros Hwf Hts Hd Hg Hpre.
  apply current_transitions_Some in Hts as (s & st & Hc & Hs & Hts).
  apply destination_Some in Hd as (tr & d & sd & Ht & Hto & Hsd & <-).
  destruct (wf_named m Hwf _ _ Hsd) as [l Hl]. exists l. split; [done|].
  destruct (wf_registry m _ _ Hwf Hl) as (sl & Hsl & Hname).
  split.
  - apply (updateInternalState_moves m s st d sd l); try done.
    rewrite Hts, <- Hto. apply first_valid_hit; try done.
    + intros t' Ht'. eapply (wf_lists m Hwf _ _ _ Hs). rewrite Hts.
      apply elem_of_app. by left.
    + unfold guard_holds in Hg. by rewrite Ht in Hg.
  - rewrite <- Hname. by apply currentStateName_set.
Qed.

(** The pass leaves the machine alone when no guard of the current state
    holds. *)
Lemma pass_stays m ts :
  wf m →
  current_transitions m = Some ts →
  none_valid (transition_objects m) (values m) ts = true →
  updateInternalState m = (Normal tt, m).
Proof.
  intros Hwf Hts Hnone.
  apply current_transitions_Some in Hts as (s & st & Hc & Hs & <-).
  eapply updateInternalState_stays; eauto.
  apply first_valid_none; [|done].
  intros t Ht. by eapply (wf_lists m Hwf).
Qed.

(** The pass stops at a transition whose guard holds and whose destination is
    still [null]; what follows it in the list plays no part. *)
Lemma pass_blocked m pre t post :
  wf m →
  current_transitions m = Some (pre ++ t :: post) →
  toState_of m t = Some None →
  guard_holds (transition_objects m) (values m) t = true →
  none_valid (transition_objects m) (values m) pre = true →
  updateInternalState m = (Normal tt, m).
Proof.
  intros Hwf Hts Hto Hg Hpre.
  apply current_transitions_Some in Hts as (s & st & Hc & Hs & Hts).
  unfold toState_of in Hto.
  destruct (transition_objects m !! t) as [tr|] eqn:Ht; simpl in Hto; [|done].
  injection Hto as Hto.
  apply (updateInternalState_stays m s st); try done.
  rewrite Hts, <- Hto. apply first_valid_hit; try done.
  - intros t' Ht'. eapply (wf_lists m Hwf _ _ _ Hs). rewrite Hts.
    apply elem_of_app. by left.
  - unfold guard_holds in Hg. by rewrite Ht in Hg.
Qed.

Lemma currentStateName_values f m A :
  currentStateName m = (Normal A, m) →
  currentStateName (set_values f m) = (Normal A, set_values f m).
Proof.
  unfold currentStateName, bind, this_currentState, the_name. simpl.
  destruct (currentState m) as [[s|g]|]; simpl; [|by intros [= <-]|done].
  unfold bind, the_State, ret. simpl.
  destruct (state_objects m !! s); [by intros [= <-]|done].
Qed.

(** *** A property update followed by its pass *)

Lemma update_fires f m pre t post B g :
  wf m →
  current_transitions m = Some (pre ++ t :: post) →
  destination m t = Some B →
  guard_of m t = Some g →
  g (f (values m)) = true →
  none_valid (transition_objects m) (f (values m)) pre = true →
  ∃ m', updateInternalState (set_values f m) = (Normal tt, m') ∧
    currentStateName m' = (Normal (Named B), m') ∧ values m' = f (values m).
Proof.
  intros Hwf Hts Hd Hg Hgv Hpre.
  destruct (pass_fires (set_values f m) pre t post B) as (l & _ & Hup & Hname);
    try done.
  - by apply wf_set_values.
  - unfold guard_holds. simpl. unfold guard_of in Hg.
    destruct (transition_objects m !! t) as [tr|]; simpl in Hg; [|done].
    by injection Hg as ->.
  - by exists (set_currentState (Some (StateRef l)) (set_values f m)).
Qed.

Lemma update_stays f m ts A :
  wf m →
  current_transitions m = Some ts →
  currentStateName m = (Normal (Named A), m) →
  none_valid (transition_objects m) (f (values m)) ts = true →
  ∃ m', updateInternalState (set_values f m) = (Normal tt, m') ∧
    currentStateName m' = (Normal (Named A), m') ∧
    currentState m' = currentState m.
Proof.
  intros Hwf Hts HA Hnone. exists (set_values f m).
  split; [|split; [|done]].
  - apply (pass_stays _ ts); [by apply wf_set_values|done|done].
  - by apply currentStateName_values.
Qed.

Lemma is_spec m A x :
  currentStateName m = (Normal (Named A), m) →
  is_ x m = (Normal (bool_decide (A = x)), m).
Proof.
  unfold currentStateName, is_, bind, this_currentState.
  destruct (currentState m) as [r|]; [|done].
  destruct (the_name r m) as [[n|e] m']; [|done].
  unfold ret. by intros [= -> ->].
Qed.

Lemma isOneOf_spec m A names :
  currentStateName m = (Normal (Named A), m) →
  isOneOf names m = (Normal (bool_decide (A ∈ names)), m).
Proof.
  intros HA.
  unfold isOneOf. induction names as [|x names IH]; simpl.
  - reflexivity.
  - unfold bind. rewrite (is_spec m A x HA). destruct (decide (A = x)) as [<- | Hne].
    + rewrite bool_decide_eq_true_2 by done. unfold ret.
      rewrite bool_decide_eq_true_2; [done | left].
    + rewrite bool_decide_eq_false_2 by done. rewrite IH. do 2 f_equal.
      apply bool_decide_ext. rewrite elem_of_cons.
      split; [by right | by intros [?|?]].
Qed.

(** * The claims *)

(** C1: on a machine built by calls, when the state that is current has, in
    its transition list, a transition [t] with guard [g] and with destination
    the state named [B] (declared by [from(A).to(B).when(g)] while "A" is
    current), the bag after the update satisfies [g] and the guard of no
    transition registered before [t] in that list holds on that bag, then
    [setProperty], and likewise [setProperties], returns and the current
    state is [B]. *)
Theorem C1_guarded_transition_fires m pre t post B g :
  reachable m →
  current_transitions m = Some (pre ++ t :: post) →
  destination m t = Some B →
  guard_of m t = Some g →
  (∀ k v,
      g (<[k := v]> (values m)) = true →
      none_valid (transition_objects m) (<[k := v]> (values m)) pre = true →
      ∃ m', setProperty k v m = (Normal tt, m') ∧
        currentStateName m' = (Normal (Named B), m')) ∧
  (∀ objects,
      g (objects ∪ values m) = true →
      none_valid (transition_objects m) (objects ∪ values m) pre = true →
      ∃ m', setProperties objects m = (Normal tt, m') ∧
        currentStateName m' = (Normal (Named B), m')).
Proof.
  intros Hr Hts Hd Hg. apply reachable_wf in Hr. split.
  - intros k v Hgv Hpre. rewrite setProperty_unfold.
    destruct (update_fires <[k := v]> m pre t post B g) as (m' & ? & ? & _);
      eauto.
  - intros objects Hgv Hpre. rewrite setProperties_unfold.
    destruct (update_fires (write_all objects) m pre t post B g)
      as (m' & ? & ? & _); rewrite ?write_all_union; eauto.
Qed.

Lemma C1_witness :
  ∃ m', setProperty "velocityX" (VNumber 5) walker = (Normal tt, m') ∧
    currentStateName m' = (Normal (Named "Running"), m').
Proof.
  refine (proj1 (C1_guarded_transition_fires walker [] 0 [] "Running" moving
    _ _ _ _) "velocityX" (VNumber 5) _ _); try reflexivity.
  by exists walker_setup.
Defined.

(** C2: first match wins.  On a machine built by calls whose current state
    lists the transitions [T1] and, later, [T2], both with a bound
    destination and both with a guard that holds on the bag of the pass,
    [T1] being the first of the list whose guard holds (as it is when the
    origin has just these two), the pass ends in the destination of [T1];
    it does not end in the destination of [T2] when that is another
    state. *)
Theorem C2_first_match_wins m pre t1 mid t2 post B1 B2 :
  reachable m →
  current_transitions m = Some (pre ++ t1 :: mid ++ t2 :: post) →
  destination m t1 = Some B1 →
  destination m t2 = Some B2 →
  guard_holds (transition_objects m) (values m) t1 = true →
  guard_holds (transition_objects m) (values m) t2 = true →
  none_valid (transition_objects m) (values m) pre = true →
  ∃ m', updateInternalState m = (Normal tt, m') ∧
    currentStateName m' = (Normal (Named B1), m') ∧
    (B2 ≠ B1 → currentStateName m' ≠ (Normal (Named B2), m')).
Proof.
  intros Hr Hts Hd1 _ Hg1 _ Hpre. apply reachable_wf in Hr.
  destruct (pass_fires m pre t1 (mid ++ t2 :: post) B1)
    as (l & _ & Hup & Hname); try done.
  exists (set_currentState (Some (StateRef l)) m). split; [done|]. split; [done|].
  rewrite Hname. intros Hne [= ->]. done.
Qed.

Lemma C2_witness :
  ∃ m', updateInternalState fork = (Normal tt, m') ∧
    currentStateName m' = (Normal (Named "B"), m') ∧
    ("C" ≠ "B" → currentStateName m' ≠ (Normal (Named "C"), m')).
Proof.
  apply (C2_first_match_wins fork [] 0 [] 1 [] "B" "C"); try reflexivity.
  by exists fork_setup.
Defined.



(** One pass per entry would have left the machine [staged] in "Half": the
    pass after "a" alone takes the second transition. *)
Example per_entry_differs :
  (currentStateName
     (setProperties {["a" := VNumber 1; "b" := VNumber 2]} staged).2).1
    = Normal (Named "Both") ∧
  (currentStateName
     (setProperties_per_entry [("a", VNumber 1); ("b", VNumber 2)] staged).2).1
    = Normal (Named "Half").
Proof. split; reflexivity. Qed.

(** C4: idempotence under no match.  On a machine built by calls with a
    current state named [A], when no guard of the transitions of the current
    state holds on the bag that [setProperty], or [setProperties], produces,
    the call returns and [currentStateName] is still [A]. *)
Theorem C4_no_match_keeps_state m ts A :
  reachable m →
  current_transitions m = Some ts →
  currentStateName m = (Normal (Named A), m) →
  (∀ k v,
      none_valid (transition_objects m) (<[k := v]> (values m)) ts = true →
      ∃ m', setProperty k v m = (Normal tt, m') ∧
        currentStateName m' = (Normal (Named A), m') ∧
        currentState m' = currentState m) ∧
  (∀ objects,
      none_valid (transition_objects m) (objects ∪ values m) ts = true →
      ∃ m', setProperties objects m = (Normal tt, m') ∧
        currentStateName m' = (Normal (Named A), m') ∧
        currentState m' = currentState m).
Proof.
  intros Hr Hts HA. apply reachable_wf in Hr. split.
  - intros k v Hnone. rewrite setProperty_unfold. by apply (update_stays _ _ ts).
  - intros objects Hnone. rewrite setProperties_unfold.
    apply (update_stays _ _ ts); rewrite ?write_all_union; done.
Qed.

Lemma C4_witness :
  ∃ m', setProperty "velocityX" (VNumber 0) walker = (Normal tt, m') ∧
    currentStateName m' = (Normal (Named "Idle"), m') ∧
    currentState m' = currentState walker.
Proof.
  refine (proj1 (C4_no_match_keeps_state walker [0] "Idle" _ _ _)
    "velocityX" (VNumber 0) _); try reflexivity.
  by exists walker_setup.
Defined.

(** C5: [getState] does not throw for every name that was never given to
    [addState].  The registry is a plain object and [getState] tests what
    the name yields in it, so a name that the object inherits is taken for a
    state.  On [walker], whose states are "Idle" and "Running" and whose
    current state is "Idle": [setCurrentState("constructor")] returns, and
    the current state is then the function [Object], with [currentStateName]
    "Object"; [to("constructor")] returns and binds the transition to that
    function; and [from("toString")] throws as a call of what is not a
    function, not as [getState] does. *)
Theorem C5_inherited_name_resolves :
  never_added "constructor" walker_setup = true ∧
  never_added "toString" walker_setup = true ∧
  currentState walker = Some (StateRef 0) ∧
  setCurrentState "constructor" walker
    = (Normal tt, set_currentState (Some (Foreign ObjectFunction)) walker) ∧
  currentStateName (set_currentState (Some (Foreign ObjectFunction)) walker)
    = (Normal (Named "Object"),
       set_currentState (Some (Foreign ObjectFunction)) walker) ∧
  (∀ t, to t "constructor" walker
     = (Normal t,
        set_transition_objects (alter (bind_toState (Foreign ObjectFunction)) t)
          walker)) ∧
  from "toString" walker = (Throw TypeError, walker).
Proof. repeat split; reflexivity. Qed.

(** *** Declaring a transition *)

Lemma from_Normal origin m t m1 :
  from origin m = (Normal t, m1) →
  ∃ a, registered m origin = Some a ∧ t = length (transition_objects m) ∧
    transition_objects m1
      = transition_objects m
          ++ [mkTransition always_true (Some (StateRef a)) None].
Proof.
  destruct (from_cases origin m) as [[e ->] | (a & Ha & ->)]; [done|].
  intros [= <- <-]. by exists a.
Qed.

Lemma to_Normal t dest m t' m2 :
  to t dest m = (Normal t', m2) →
  ∃ r, lookup_states m dest = Some r ∧
    m2 = set_transition_objects (alter (bind_toState r) t) m.
Proof.
  destruct (to_cases t dest m) as [-> | (r & Hr & _ & ->)]; [done|].
  intros [= <- <-]. by exists r.
Qed.

Lemma to_registered t dest m b :
  registered m dest = Some b →
  to t dest m
    = (Normal t, set_transition_objects (alter (bind_toState (StateRef b)) t) m).
Proof. intros Hb. unfold to, bind. by rewrite (getState_registered _ _ _ Hb). Qed.

(** The chain [from(A).to(B).when(g)] on registered names: the transition
    is the last of the list of the object registered as [A], with guard [g]
    and destination [B]. *)
Lemma chain_declares m A B g a b sa :
  wf m →
  registered m A = Some a →
  registered m B = Some b →
  state_objects m !! a = Some sa →
  let t := length (transition_objects m) in
  let m' := run [From A; To t B; When t g] m in
  _transitions <$> state_objects m' !! a = Some (_transitions sa ++ [t]) ∧
  guard_of m' t = Some g ∧
  destination m' t = Some B.
Proof.
  intros Hwf Ha Hb Hsa t m'. subst m'. unfold run. cbn [foldl exec].
  rewrite (from_registered A m a Ha). fold t. cbn [snd].
  rewrite (to_registered t B _ b) by (by erewrite registered_ext). simpl.
  destruct (wf_registry m _ _ Hwf Hb) as (sb & Hsb & Hname).
  split; [|split].
  - by rewrite list_lookup_alter_eq, Hsa.
  - unfold guard_of. simpl. rewrite !list_lookup_alter_eq.
    unfold t. by rewrite list_lookup_middle.
  - unfold destination. simpl. rewrite !list_lookup_alter_eq.
    unfold t. rewrite list_lookup_middle by done. simpl.
    rewrite list_lookup_alter. case_decide; subst; rewrite Hsb; simpl; congruence.
Qed.

(** C6, amended: a transition keeps the guard [always_true] that [from] gave
    it as long as only [to] is called on it; and on a machine built by calls,
    a transition of the current state with that guard and a bound
    destination [B] fires on a pass after any update, whatever the bag holds
    and whatever is registered after it, provided the guard of no transition
    registered before it holds on the bag of that pass. *)
Theorem C6_unguarded_transition :
  (∀ m origin t m1,
      from origin m = (Normal t, m1) →
      guard_of m1 t = Some always_true ∧
      ∀ dest t' m2, to t dest m1 = (Normal t', m2) →
        guard_of m2 t = Some always_true) ∧
  (∀ m pre t post B,
      reachable m →
      current_transitions m = Some (pre ++ t :: post) →
      guard_of m t = Some always_true →
      destination m t = Some B →
      (∀ k v,
          none_valid (transition_objects m) (<[k := v]> (values m)) pre = true →
          ∃ m', setProperty k v m = (Normal tt, m') ∧
            currentStateName m' = (Normal (Named B), m')) ∧
      (∀ objects,
          none_valid (transition_objects m) (objects ∪ values m) pre = true →
          ∃ m', setProperties objects m = (Normal tt, m') ∧
            currentStateName m' = (Normal (Named B), m'))).
Proof.
  split.
  - intros m origin t m1 Hfrom.
    apply from_Normal in Hfrom as (a & Ha & -> & Hheap).
    assert (H1 : guard_of m1 (length (transition_objects m)) = Some always_true).
    { unfold guard_of. by rewrite Hheap, list_lookup_middle. }
    split; [done|]. intros dest t' m2 Hto.
    apply to_Normal in Hto as (b & _ & ->). unfold guard_of in *. simpl.
    rewrite list_lookup_alter_eq.
    destruct (transition_objects m1 !! length (transition_objects m));
      simpl in *; [|done]. by injection H1 as ->.
  - intros m pre t post B Hr Hts Hg Hd. apply reachable_wf in Hr. split.
    + intros k v Hpre. rewrite setProperty_unfold.
      destruct (update_fires <[k := v]> m pre t post B always_true)
        as (m' & ? & ? & _); eauto.
    + intros objects Hpre. rewrite setProperties_unfold.
      destruct (update_fires (write_all objects) m pre t post B always_true)
        as (m' & ? & ? & _); rewrite ?write_all_union; eauto.
Qed.

Lemma C6_witness :
  (guard_of (from "Idle" walker).2 2 = Some always_true ∧
   ∀ dest t' m2, to 2 dest (from "Idle" walker).2 = (Normal t', m2) →
     guard_of m2 2 = Some always_true) ∧
  ∃ m', setProperty "x" (VNumber 0) preempted = (Normal tt, m') ∧
    currentStateName m' = (Normal (Named "B"), m').
Proof.
  split.
  - refine (proj1 C6_unguarded_transition walker "Idle" 2 _ _). reflexivity.
  - refine (proj1 (proj2 C6_unguarded_transition preempted [0] 1 [] "B" _ _ _ _)
      "x" (VNumber 0) _); try reflexivity.
    by exists preempted_setup.
Defined.

(** C6 as stated fails on [preempted]: "A" is current, its second transition
    was declared without [when], has the guard [always_true] and the
    destination "B", and the first pass ends in "C", the destination of the
    transition registered before it, not in "B". *)
Lemma C6_counterexample :
  currentStateName preempted = (Normal (Named "A"), preempted) ∧
  current_transitions preempted = Some [0; 1] ∧
  guard_of preempted 1 = Some always_true ∧
  destination preempted 1 = Some "B" ∧
  (setProperty "x" (VNumber 1) preempted).1 = Normal tt ∧
  (currentStateName (setProperty "x" (VNumber 1) preempted).2).1
    = Normal (Named "C") ∧
  (currentStateName (setProperty "x" (VNumber 1) preempted).2).1
    ≠ Normal (Named "B").
Proof. repeat split; try reflexivity. vm_compute. discriminate. Qed.

(** C7, amended: after any sequence of calls in which no [addState] is given
    the name of the state that is current when it is called, and no
    [setCurrentState] and no [to] is given a name under which the registry
    yields a value that is not a [State], [currentState] holds at most one
    reference and, when it holds one, that reference is a [State] object,
    the one that the registry yields under the name of that object. *)
Theorem C7_current_state_registered cs :
  all_keep_current cs new_FiniteStateMachine = true →
  let m := run cs new_FiniteStateMachine in
  (∀ r r', currentState m = Some r → currentState m = Some r' → r = r') ∧
  (∀ r, currentState m = Some r →
     ∃ s st, r = StateRef s ∧ state_objects m !! s = Some st ∧
       lookup_states m (name st) = Some (StateRef s)).
Proof.
  intros Hkeep m. split; [congruence|].
  apply current_registered_run; [apply wf_new | done |].
  split; [intros r Hr; discriminate | intros t tr f Htr; discriminate].
Qed.

Lemma C7_witness :
  (∀ r r', currentState walker = Some r → currentState walker = Some r' → r = r') ∧
  (∀ r, currentState walker = Some r →
     ∃ s st, r = StateRef s ∧ state_objects walker !! s = Some st ∧
       lookup_states walker (name st) = Some (StateRef s)).
Proof. apply (C7_current_state_registered walker_setup). reflexivity. Defined.

(** C7 as stated fails on [registered_twice]: the second [addState("A")]
    puts a new object in the registry while [currentState] keeps the one
    registered first.  It also fails, through the lookup of inherited names,
    on [inherited_current], where no state was registered at all and the
    current state is the function [Object]. *)
Lemma C7_counterexample :
  (currentState registered_twice = Some (StateRef 0) ∧
   name <$> state_objects registered_twice !! 0 = Some "A" ∧
   lookup_states registered_twice "A" = Some (StateRef 1) ∧
   ¬ current_registered registered_twice) ∧
  (currentState inherited_current = Some (Foreign ObjectFunction) ∧
   state_objects inherited_current = [] ∧
   ¬ current_registered inherited_current).
Proof.
  split; repeat split; try reflexivity.
  - intros H. destruct (H _ eq_refl) as (s & st & [= <-] & Hst & Hreg).
    vm_compute in Hst. injection Hst as <-. vm_compute in Hreg. discriminate.
  - intros H. destruct (H _ eq_refl) as (s & st & Hs & _). discriminate.
Qed.

(** C8: after any sequence of calls none of which is [setCurrentState],
    reading [currentStateName] throws, and so do [setProperty] and
    [setProperties], whose pass dereferences the [null] current state. *)
Theorem C8_no_current_state_throws cs :
  never_set cs = true →
  let m := run cs new_FiniteStateMachine in
  currentStateName m = (Throw TypeError, m) ∧
  (∀ k v, (setProperty k v m).1 = Throw TypeError) ∧
  (∀ objects, (setProperties objects m).1 = Throw TypeError).
Proof.
  intros Hcs m.
  assert (Hm : currentState m = None) by (by apply run_keeps_null).
  split; [|split].
  - unfold currentStateName, bind, this_currentState. by rewrite Hm.
  - intros k v. rewrite setProperty_unfold. by rewrite updateInternalState_null.
  - intros o. rewrite setProperties_unfold. by rewrite updateInternalState_null.
Qed.

Lemma C8_witness :
  let m := run [AddState "Idle"; AddState "Running"; From "Idle"; To 0 "Running"]
             new_FiniteStateMachine in
  currentStateName m = (Throw TypeError, m) ∧
  (∀ k v, (setProperty k v m).1 = Throw TypeError) ∧
  (∀ objects, (setProperties objects m).1 = Throw TypeError).
Proof.
  apply (C8_no_current_state_throws
    [AddState "Idle"; AddState "Running"; From "Idle"; To 0 "Running"]).
  reflexivity.
Defined.

(** C9: on a machine whose current state is named [A], [isOneOf] returns,
    for every list of names, a boolean that is [true] exactly when [A] is
    one of the names. *)
Theorem C9_isOneOf m A names :
  currentStateName m = (Normal (Named A), m) →
  ∃ b, isOneOf names m = (Normal b, m) ∧ (b = true ↔ A ∈ names).
Proof.
  intros HA. exists (bool_decide (A ∈ names)).
  split; [by apply isOneOf_spec | apply bool_decide_eq_true].
Qed.

Lemma C9_witness :
  ∃ b, isOneOf ["Crouched"; "Idle"; "Running"] walker = (Normal b, walker) ∧
    (b = true ↔ "Idle" ∈ ["Crouched"; "Idle"; "Running"]).
Proof. apply (C9_isOneOf walker "Idle"). reflexivity. Defined.

(** C10, amended: [from] appends the new transition to the list of its
    origin with the guard [always_true] and no destination, and a [to] with
    a name under which the registry yields nothing throws and leaves it so;
    on a machine built by calls, when a transition of the current state has
    no destination, its guard holds on the bag of the pass and the guard of
    no transition registered before it holds, the pass after an update
    returns with only the bag changed, whatever transitions are registered
    after it. *)
Theorem C10_half_built_transition :
  (∀ m origin a sa,
      lookup_states m origin = Some (StateRef a) →
      state_objects m !! a = Some sa →
      ∃ t m1, from origin m = (Normal t, m1) ∧
        state_objects m1 !! a = Some (mkState (name sa) (_transitions sa ++ [t])) ∧
        transition_objects m1 !! t
          = Some (mkTransition always_true (Some (StateRef a)) None) ∧
        ∀ missing, lookup_states m1 missing = None →
          to t missing m1 = (Throw (StateNotFound missing), m1)) ∧
  (∀ m pre t post g,
      reachable m →
      current_transitions m = Some (pre ++ t :: post) →
      toState_of m t = Some None →
      guard_of m t = Some g →
      (∀ k v,
          g (<[k := v]> (values m)) = true →
          none_valid (transition_objects m) (<[k := v]> (values m)) pre = true →
          setProperty k v m = (Normal tt, set_values <[k := v]> m)) ∧
      (∀ objects,
          g (objects ∪ values m) = true →
          none_valid (transition_objects m) (objects ∪ values m) pre = true →
          setProperties objects m
            = (Normal tt, set_values (λ vals, objects ∪ vals) m))).
Proof.
  split.
  - intros m origin a sa Ha Hsa. apply lookup_registered in Ha.
    eexists _, _. split; [by apply from_registered|]. simpl.
    split; [|split].
    + by rewrite list_lookup_alter_eq, Hsa.
    + by rewrite list_lookup_middle.
    + intros missing Hmiss. unfold to, bind.
      by rewrite (getState_unknown _ _ Hmiss).
  - intros m pre t post g Hr Hts Hto Hg. apply reachable_wf in Hr.
    assert (Hpass : ∀ f,
      g (f (values m)) = true →
      none_valid (transition_objects m) (f (values m)) pre = true →
      updateInternalState (set_values f m) = (Normal tt, set_values f m)).
    { intros f Hgv Hpre.
      apply (pass_blocked (set_values f m) pre t post); try done.
      - by apply wf_set_values.
      - unfold guard_holds. simpl. unfold guard_of in Hg.
        destruct (transition_objects m !! t); simpl in Hg; [|done].
        by injection Hg as ->. }
    split.
    + intros k v Hgv Hpre. rewrite setProperty_unfold. by apply Hpass.
    + intros objects Hgv Hpre. rewrite setProperties_unfold.
      rewrite <- (Hpass (λ vals, objects ∪ vals)) by done.
      unfold set_values. by rewrite write_all_union.
Qed.

Lemma C10_witness :
  (∃ t m1, from "Idle" walker = (Normal t, m1) ∧
     state_objects m1 !! 0 = Some (mkState "Idle" ([0] ++ [t])) ∧
     transition_objects m1 !! t
       = Some (mkTransition always_true (Some (StateRef 0)) None) ∧
     ∀ missing, lookup_states m1 missing = None →
       to t missing m1 = (Throw (StateNotFound missing), m1)) ∧
  setProperty "x" (VNumber 1) half_built_first
    = (Normal tt, set_values <["x" := VNumber 1]> half_built_first).
Proof.
  split.
  - apply (proj1 C10_half_built_transition walker "Idle" 0 (mkState "Idle" [0]));
      reflexivity.
  - refine (proj1 (proj2 C10_half_built_transition half_built_first [] 0 [1]
      always_true _ _ _ _) "x" (VNumber 1) _ _); try reflexivity.
    by eexists.
Defined.

(** C10 as stated fails in two ways.  On [half_built_second] the transition
    without destination comes after a complete one whose guard holds: the
    pass switches to "B".  On [half_built_guarded] the transition without
    destination was given a guard that fails: the pass goes on to the
    transition registered after it and switches to "B". *)
Lemma C10_counterexample :
  (currentStateName half_built_second = (Normal (Named "A"), half_built_second) ∧
   current_transitions half_built_second = Some [0; 1] ∧
   toState_of half_built_second 1 = Some None ∧
   guard_of half_built_second 1 = Some always_true ∧
   (currentStateName (setProperty "x" (VNumber 1) half_built_second).2).1
     = Normal (Named "B") ∧
   (currentStateName (setProperty "x" (VNumber 1) half_built_second).2).1
     ≠ Normal (Named "A")) ∧
  (currentStateName half_built_guarded = (Normal (Named "A"), half_built_guarded) ∧
   current_transitions half_built_guarded = Some [0; 1] ∧
   toState_of half_built_guarded 0 = Some None ∧
   (currentStateName (setProperty "x" (VNumber 1) half_built_guarded).2).1
     = Normal (Named "B") ∧
   (currentStateName (setProperty "x" (VNumber 1) half_built_guarded).2).1
     ≠ Normal (Named "A")).
Proof. repeat split; try reflexivity; vm_compute; discriminate. Qed.

(** * Further properties of the machine *)

(** *** Updates on a machine that has a current state *)

Lemma updateInternalState_foreign m f :
  currentState m = Some (Foreign f) →
  updateInternalState m = (Throw TypeError, m).
Proof.
  intros Hc. unfold updateInternalState, bind, this_currentState, receiver.
  by rewrite Hc.
Qed.



(** Without the proviso the pass can throw.  On [inherited_destination] the
    transition of the current state is bound to the function [Object], and
    the pass looks up the name of that function; on [inherited_current] the
    current state is that function, which has no [checkForTransitions]. *)
Example update_throws_on_inherited_name :
  (current_transitions inherited_destination = Some [0] ∧
   toState_of inherited_destination 0 = Some (Some (Foreign ObjectFunction)) ∧
   setProperty "x" (VNumber 1) inherited_destination
     = (Throw (StateNotFound "Object"),
        set_values <["x" := VNumber 1]> inherited_destination)) ∧
  (currentState inherited_current = Some (Foreign ObjectFunction) ∧
   setProperty "x" (VNumber 1) inherited_current
     = (Throw TypeError, set_values <["x" := VNumber 1]> inherited_current)).
Proof. repeat split; reflexivity. Qed.


(** X5: once a state is current, no sequence of calls, failed ones included,
    leaves the machine without a current state. *)
Theorem current_state_never_unset cs m :
  is_Some (currentState m) → is_Some (currentState (run cs m)).
Proof.
  revert m. induction cs as [|c cs IH]; intros m H; [done|].
  rewrite run_cons. by apply IH, exec_current_Some.
Qed.

Lemma current_state_never_unset_witness :
  is_Some (currentState
    (run [SetCurrentState "Flying"; SetProperty "velocityX" (VNumber 3);
          AddState "Idle"; SetProperties ∅] walker)).
Proof. apply current_state_never_unset. by eexists. Defined.

(** X1: after any sequence of calls one of which is [addState] of the name,
    the registry yields under the name a [State] object of that name:
    [getState], [from] and [to] return, and [setCurrentState] returns having
    assigned [currentState] and nothing else, so that [currentStateName] is
    the name. *)
Theorem registered_name_resolves cs n :
  never_added n cs = false →
  let m := run cs new_FiniteStateMachine in
  ∃ s, lookup_states m n = Some (StateRef s) ∧
    (name <$> state_objects m !! s) = Some n ∧
    getState n m = (Normal (StateRef s), m) ∧
    (∃ m1, from n m = (Normal (length (transition_objects m)), m1)) ∧
    (∀ t, ∃ m2, to t n m = (Normal t, m2)) ∧
    setCurrentState n m
      = (Normal tt, set_currentState (Some (StateRef s)) m) ∧
    currentStateName (set_currentState (Some (StateRef s)) m)
      = (Normal (Named n), set_currentState (Some (StateRef s)) m).
Proof.
  intros Hn m.
  destruct (run_registered cs new_FiniteStateMachine n wf_new Hn) as [s Hs].
  fold m in Hs. exists s. split; [by apply lookup_registered|].
  assert (Hwf : wf m) by apply wf_run, wf_new.
  destruct (wf_registry m _ _ Hwf Hs) as (st & Hst & Hname).
  split; [by rewrite Hst; simpl; f_equal|].
  split; [by apply getState_registered|].
  split; [eexists; by apply from_registered|].
  split.
  - intros t. rewrite (to_registered t n m s Hs). by eexists.
  - split.
    + unfold setCurrentState, bind. by rewrite (getState_registered n m s Hs).
    + rewrite <- Hname. by apply currentStateName_set.
Qed.

Lemma registered_name_resolves_witness :
  ∃ s, lookup_states walker "Running" = Some (StateRef s) ∧
    (name <$> state_objects walker !! s) = Some "Running" ∧
    getState "Running" walker = (Normal (StateRef s), walker) ∧
    (∃ m1, from "Running" walker
             = (Normal (length (transition_objects walker)), m1)) ∧
    (∀ t, ∃ m2, to t "Running" walker = (Normal t, m2)) ∧
    setCurrentState "Running" walker
      = (Normal tt, set_currentState (Some (StateRef s)) walker) ∧
    currentStateName (set_currentState (Some (StateRef s)) walker)
      = (Normal (Named "Running"), set_currentState (Some (StateRef s)) walker).
Proof. apply (registered_name_resolves walker_setup "Running"). reflexivity. Defined.

(** X3: on a machine built by calls whose current state has no transition
    bound to a value that is not a [State], an update makes at most one
    switch: after [setProperty] or [setProperties] the current state is the
    one before, or the state named as the destination of one of the
    transitions of the state before whose guard holds on the new bag. *)
Theorem update_takes_one_outgoing_transition m ts A :
  reachable m →
  current_transitions m = Some ts →
  bound_to_States m ts = true →
  currentStateName m = (Normal (Named A), m) →
  (∀ k v, ∃ m' B, setProperty k v m = (Normal tt, m') ∧
     currentStateName m' = (Normal (Named B), m') ∧
     (currentState m' = currentState m ∧ B = A ∨
      ∃ t, t ∈ ts ∧ destination m t = Some B ∧
        guard_holds (transition_objects m) (<[k := v]> (values m)) t = true)) ∧
  (∀ objects, ∃ m' B, setProperties objects m = (Normal tt, m') ∧
     currentStateName m' = (Normal (Named B), m') ∧
     (currentState m' = currentState m ∧ B = A ∨
      ∃ t, t ∈ ts ∧ destination m t = Some B ∧
        guard_holds (transition_objects m) (objects ∪ values m) t = true)).
Proof.
  intros Hr Hts Hb HA. apply reachable_wf in Hr.
  assert (H : ∀ f, ∃ m' B,
     updateInternalState (set_values f m) = (Normal tt, m') ∧
     currentStateName m' = (Normal (Named B), m') ∧
     (currentState m' = currentState m ∧ B = A ∨
      ∃ t, t ∈ ts ∧ destination m t = Some B ∧
        guard_holds (transition_objects m) (f (values m)) t = true)).
  { intros f.
    apply current_transitions_Some in Hts as (s & st & Hc & Hs & <-).
    destruct (pass_total (set_values f m) s st)
      as [Hup | (t & tr & d & sd & l & sl & Ht & Htr & Hg & Hd & Hsd & Hl
                 & Hsl & Hname & Hup)];
      [by apply wf_set_values | done | done | done | |].
    - exists (set_values f m), A. split; [done|]. split; [|by left].
      by apply currentStateName_values.
    - exists (set_currentState (Some (StateRef l)) (set_values f m)), (name sd).
      split; [done|].
      split; [rewrite <- Hname; by apply currentStateName_set|].
      right. exists t. split; [done|]. simpl in *. split.
      + unfold destination. rewrite Htr. simpl. rewrite Hd. by rewrite Hsd.
      + unfold guard_holds. by rewrite Htr. }
  split.
  - intros k v. rewrite setProperty_unfold. apply H.
  - intros o. rewrite setProperties_unfold.
    destruct (H (write_all o)) as (m' & B & ? & ? & Hor).
    exists m', B. rewrite write_all_union in Hor. done.
Qed.

Lemma update_takes_one_outgoing_transition_witness :
  ∃ m' B, setProperty "velocityX" (VNumber 2) walker = (Normal tt, m') ∧
     currentStateName m' = (Normal (Named B), m') ∧
     (currentState m' = currentState walker ∧ B = "Idle" ∨
      ∃ t, t ∈ [0] ∧ destination walker t = Some B ∧
        guard_holds (transition_objects walker)
          (<["velocityX" := VNumber 2]> (values walker)) t = true).
Proof.
  refine (proj1 (update_takes_one_outgoing_transition walker [0] "Idle" _ _ _ _)
    _ _); try reflexivity.
  by exists walker_setup.
Defined.

(** X6: [is(n)] returns whether [currentStateName] is [n], [isOneOf(n)] with
    that single name returns the same, and with no current state [is] throws. *)
Theorem is_agrees_with_currentStateName m n :
  (∀ A, currentStateName m = (Normal (Named A), m) →
     is_ n m = (Normal (bool_decide (A = n)), m) ∧ isOneOf [n] m = is_ n m) ∧
  (currentState m = None → is_ n m = (Throw TypeError, m)).
Proof.
  split.
  - intros A HA. pose proof (is_spec m A n HA) as H.
    split; [done|]. unfold isOneOf. simpl. unfold bind. rewrite H.
    by destruct (bool_decide (A = n)).
  - intros Hc. unfold is_, bind, this_currentState. by rewrite Hc.
Qed.

Lemma is_agrees_with_currentStateName_witness :
  (is_ "Idle" walker = (Normal (bool_decide ("Idle" = "Idle")), walker) ∧
   isOneOf ["Idle"] walker = is_ "Idle" walker) ∧
  is_ "Idle" new_FiniteStateMachine = (Throw TypeError, new_FiniteStateMachine).
Proof.
  split.
  - apply (proj1 (is_agrees_with_currentStateName walker "Idle") "Idle").
    reflexivity.
  - apply (proj2 (is_agrees_with_currentStateName new_FiniteStateMachine "Idle")).
    reflexivity.
Defined.

(** X7: with no current state, [isOneOf] called with no name returns [false]
    ([some] never calls [is]), and called with at least one name throws. *)
Theorem isOneOf_without_current_state m names :
  currentState m = None →
  isOneOf names m =
    (match names with [] => Normal false | _ :: _ => Throw TypeError end, m).
Proof.
  intros Hc. destruct names as [|n names]; [done|].
  unfold isOneOf. simpl. unfold bind, is_, bind, this_currentState.
  by rewrite Hc.
Qed.

Lemma isOneOf_without_current_state_witness :
  isOneOf [] new_FiniteStateMachine = (Normal false, new_FiniteStateMachine) ∧
  isOneOf ["Idle"; "Running"] new_FiniteStateMachine
    = (Throw TypeError, new_FiniteStateMachine).
Proof.
  split.
  - apply (isOneOf_without_current_state new_FiniteStateMachine []). reflexivity.
  - apply (isOneOf_without_current_state new_FiniteStateMachine ["Idle"; "Running"]).
    reflexivity.
Defined.

(** X8: no sequence of calls removes a [State] object, renames it, or removes
    or reorders its transitions: the list it had is a prefix of the list it
    has afterwards. *)
Theorem transitions_only_appended cs m s st :
  state_objects m !! s = Some st →
  ∃ st', state_objects (run cs m) !! s = Some st' ∧ name st' = name st ∧
    _transitions st `prefix_of` _transitions st'.
Proof.
  revert m st. induction cs as [|c cs IH]; intros m st Hs.
  - by exists st.
  - rewrite run_cons.
    destruct (exec_state_objects c m s st Hs) as (st1 & Hs1 & Hn1 & Hp1).
    destruct (IH _ _ Hs1) as (st' & Hs' & Hn' & Hp').
    exists st'. split; [done|]. split; [congruence|]. by etrans.
Qed.

Lemma transitions_only_appended_witness :
  ∃ st', state_objects
      (run [From "Idle"; AddState "Idle"; SetProperty "velocityX" (VNumber 1)]
         walker) !! 0 = Some st' ∧
    name st' = name (mkState "Idle" [0]) ∧
    _transitions (mkState "Idle" [0]) `prefix_of` _transitions st'.
Proof. apply (transitions_only_appended _ walker 0). reflexivity. Defined.

(** X9: on a transition, [to] and [when] made as separate calls commute, and
    of two [when] calls the later one decides the guard. *)
Theorem builder_calls_commute t B g g' m :
  run [To t B; When t g] m = run [When t g; To t B] m ∧
  run [When t g'; When t g] m = run [When t g] m.
Proof.
  unfold run. cbn [foldl exec]. split.
  - destruct (to_cases t B m) as [Hto | (r & Hr & Ht & Hto)].
    + rewrite Hto. unfold to, bind, getState in *.
      change (lookup_states (when t g m).2 B) with (lookup_states m B).
      destruct (lookup_states m B) as [r|]; [destruct (truthy r)|]; done.
    + rewrite Hto. unfold to, bind, getState.
      change (lookup_states (when t g m).2 B) with (lookup_states m B).
      rewrite Hr, Ht. simpl.
      unfold set_transition_objects. simpl. f_equal.
      apply list_eq. intros i. destruct (decide (t = i)) as [<- | Hne].
      * rewrite !list_lookup_alter_eq. by destruct (transition_objects m !! t).
      * by rewrite !list_lookup_alter_ne.
  - simpl. unfold set_transition_objects. simpl. f_equal.
    apply list_eq. intros i. destruct (decide (t = i)) as [<- | Hne].
    + rewrite !list_lookup_alter_eq. by destruct (transition_objects m !! t).
    + by rewrite !list_lookup_alter_ne.
Qed.

(** X10: a batch of one entry is [setProperty] of that entry, and the empty
    batch is a pass on the bag as it is. *)
Theorem batch_of_one k v m :
  setProperties {[k := v]} m = setProperty k v m ∧
  setProperties ∅ m = updateInternalState m.
Proof.
  rewrite !setProperties_unfold, setProperty_unfold. split.
  - unfold set_values. by rewrite write_all_union, insert_union_singleton_l.
  - unfold set_values. rewrite write_all_union, (left_id_L ∅ (∪)).
    by destruct m.
Qed.

(** X11: on a machine built by calls whose current state has no transition
    bound to a value that is not a [State], when an update switches the
    state, the new current state is the object the registry yields under its
    name, also when the transition was bound to an object that was
    registered under that name before: the destination is looked up by name
    when the transition fires. *)
Theorem switch_enters_registered_object m :
  reachable m →
  (∀ ts, current_transitions m = Some ts → bound_to_States m ts = true) →
  (∀ k v, let m' := (setProperty k v m).2 in
     currentState m' ≠ currentState m → current_registered m') ∧
  (∀ objects, let m' := (setProperties objects m).2 in
     currentState m' ≠ currentState m → current_registered m').
Proof.
  intros Hr Hb. apply reachable_wf in Hr.
  assert (H : ∀ f, let m' := (updateInternalState (set_values f m)).2 in
     currentState m' ≠ currentState m → current_registered m').
  { intros f. destruct (currentState m) as [[s|g]|] eqn:Hc.
    - destruct (lookup_lt_is_Some_2 (state_objects m) s) as [st Hs];
        [by apply (wf_current m Hr)|].
      destruct (pass_total (set_values f m) s st)
        as [-> | (t & tr & d & sd & l & sl & _ & _ & _ & _ & _ & Hl & _ & _ & ->)];
        [by apply wf_set_values | done | done | | |].
      + apply Hb. unfold current_transitions. by rewrite Hc, Hs.
      + simpl. by rewrite Hc.
      + simpl. intros _. apply lookup_registered in Hl.
        apply (current_registered_set (set_values f m) (name sd) l);
          [by apply wf_set_values | done].
    - rewrite (updateInternalState_foreign _ g) by done. simpl. by rewrite Hc.
    - rewrite updateInternalState_null by done. simpl. by rewrite Hc. }
  split.
  - intros k v. rewrite setProperty_unfold. apply H.
  - intros o. rewrite setProperties_unfold. apply H.
Qed.

Lemma switch_enters_registered_object_witness :
  current_registered (setProperty "x" (VNumber 1) redirected).2.
Proof.
  refine (proj1 (switch_enters_registered_object redirected _ _)
    "x" (VNumber 1) _).
  - by eexists.
  - intros ts [= <-]. reflexivity.
  - vm_compute. discriminate.
Defined.

(** The transition of [redirected] is bound to the object registered first
    under "B"; the update enters the object registered second. *)
Example redirected_destination :
  toState_of redirected 0 = Some (Some (StateRef 1)) ∧
  currentState (setProperty "x" (VNumber 1) redirected).2 = Some (StateRef 2).
Proof. split; reflexivity. Qed.

(** X12: on a machine built by calls, a state that [addState] has just
    registered has no transitions, also when the name was registered before
    with transitions: made current, it stays current through every update. *)
Theorem new_state_has_no_transitions m n :
  reachable m →
  let m1 := run [AddState n; SetCurrentState n] m in
  currentStateName m1 = (Normal (Named n), m1) ∧
  current_transitions m1 = Some [] ∧
  (∀ k v, setProperty k v m1 = (Normal tt, set_values <[k := v]> m1)) ∧
  (∀ objects, setProperties objects m1
     = (Normal tt, set_values (λ vals, objects ∪ vals) m1)).
Proof.
  intros Hr m1. apply reachable_wf in Hr.
  assert (Hm1 : m1 = set_currentState (Some (StateRef (length (state_objects m))))
                       (addState n m).2).
  { unfold m1, run. cbn [foldl exec]. unfold setCurrentState, bind.
    by rewrite (getState_registered n _ _ (registered_addState_new n m Hr)). }
  assert (Hc : currentState m1 = Some (StateRef (length (state_objects m))))
    by (by rewrite Hm1).
  assert (Hs : state_objects m1 !! length (state_objects m) = Some (mkState n [])).
  { rewrite Hm1. cbn [state_objects set_currentState].
    rewrite (proj1 (addState_frame n m)). by rewrite list_lookup_middle. }
  assert (Hts : current_transitions m1 = Some []).
  { unfold current_transitions. rewrite Hc. by rewrite Hs. }
  assert (Hwf : wf m1) by (by apply wf_run).
  clearbody m1.
  split; [|split; [done|split]].
  - by rewrite (currentStateName_State m1 _ _ Hc Hs).
  - intros k v. rewrite setProperty_unfold.
    apply (pass_stays _ []); [by apply wf_set_values|done|done].
  - intros o. rewrite setProperties_unfold.
    rewrite (pass_stays (set_values (write_all o) m1) []);
      [|by apply wf_set_values|done|done].
    unfold set_values. by rewrite write_all_union.
Qed.

Lemma new_state_has_no_transitions_witness :
  let m1 := run [AddState "Idle"; SetCurrentState "Idle"] walker in
  currentStateName m1 = (Normal (Named "Idle"), m1) ∧
  current_transitions m1 = Some [] ∧
  (∀ k v, setProperty k v m1 = (Normal tt, set_values <[k := v]> m1)) ∧
  (∀ objects, setProperties objects m1
     = (Normal tt, set_values (λ vals, objects ∪ vals) m1)).
Proof.
  apply (new_state_has_no_transitions walker "Idle").
  by exists walker_setup.
Defined.

(** X22: after any sequence of calls in which [addState] was never given the
    name, when the registry does not inherit the name either, [from], [to]
    on any transition and [setCurrentState] throw the "not found" exception
    for that name and leave the machine, its current state included, as it
    was. *)
Theorem unknown_name_throws cs missing :
  never_added missing cs = true →
  let m := run cs new_FiniteStateMachine in
  inherited m missing = None →
  from missing m = (Throw (StateNotFound missing), m) ∧
  (∀ t, to t missing m = (Throw (StateNotFound missing), m)) ∧
  setCurrentState missing m = (Throw (StateNotFound missing), m).
Proof.
  intros Hcs m Hin.
  assert (Hm : lookup_states m missing = None).
  { pose proof (run_unregistered cs new_FiniteStateMachine missing Hcs eq_refl)
      as Hown.
    fold m in Hown. unfold lookup_states. by rewrite Hown. }
  unfold from, to, setCurrentState, bind.
  by rewrite (getState_unknown missing m Hm).
Qed.

Lemma unknown_name_throws_witness :
  from "Flying" walker = (Throw (StateNotFound "Flying"), walker) ∧
  (∀ t, to t "Flying" walker = (Throw (StateNotFound "Flying"), walker)) ∧
  setCurrentState "Flying" walker = (Throw (StateNotFound "Flying"), walker).
Proof. apply (unknown_name_throws walker_setup "Flying"); reflexivity. Defined.

(** *** The set-up loop of the player *)

Lemma forallb_pointwise {A} (f g : A → bool) l :
  (∀ x, f x = g x) → forallb f l = forallb g l.
Proof. intros H. induction l as [|x l IH]; simpl; [done|]. by rewrite H, IH. Qed.

Lemma forEach_cons {A} (f : A → M unit) x l m :
  forEach f (x :: l) m =
    match f x m with
    | (Normal _, m') => forEach f l m'
    | (Throw e, m') => (Throw e, m')
    end.
Proof. reflexivity. Qed.

(** The lookup in a registry that has the prototype of an object literal. *)
Lemma lookup_states_plain m n :
  _states_proto m = None →
  lookup_states m n =
    match _states m !! n with
    | Some s => Some (StateRef s)
    | None =>
        if bool_decide (n = "__proto__") then Some (Foreign ObjectPrototype)
        else Foreign <$> object_member n
    end.
Proof. intros H. unfold lookup_states, inherited. by rewrite H. Qed.

Lemma lookup_states_plain_ext m m' n :
  _states_proto m = None → _states_proto m' = None → _states m' = _states m →
  lookup_states m' n = lookup_states m n.
Proof. intros H H' Hs. by rewrite !lookup_states_plain, Hs. Qed.

Lemma lookup_states_plain_Some m n :
  _states_proto m = None →
  is_Some (lookup_states m n) ↔ is_Some (_states m !! n) ∨ n ∈ object_names.
Proof.
  intros H. rewrite (lookup_states_plain m n H). unfold object_names.
  rewrite !elem_of_cons.
  destruct (_states m !! n) as [s|]; [split; [by left | by eexists]|].
  unfold object_member. repeat case_bool_decide; simpl.
  - split; [by right; left | by eexists].
  - split; [right; right; by left | by eexists].
  - split; [right; right; by right | by eexists].
  - split; [by intros [? ?] | intros [[? ?] | [? | [? | ?]]]; done].
Qed.

Lemma lookup_states_plain_truthy m n r :
  _states_proto m = None → lookup_states m n = Some r → truthy r = true.
Proof.
  intros H. rewrite (lookup_states_plain m n H).
  destruct (_states m !! n); [by intros [= <-]|].
  case_bool_decide; [by intros [= <-]|].
  unfold object_member. repeat case_bool_decide; simpl; by intros [= <-].
Qed.

Lemma forEach_addState
    (states : list (string * list (string * (gmap string value → bool)))) m :
  "__proto__" ∉ states.*1 →
  ∃ m', forEach (λ st, addState st.1) states m = (Normal tt, m') ∧
    (reachable m → reachable m') ∧
    (∀ k, is_Some (_states m' !! k) ↔ is_Some (_states m !! k) ∨ k ∈ states.*1) ∧
    _states_proto m' = _states_proto m ∧
    currentState m' = currentState m.
Proof.
  revert m. induction states as [|[n trs] states IH]; intros m Hp.
  - exists m. split; [done|]. split; [done|]. split; [|done].
    intros k. simpl. rewrite elem_of_nil. tauto.
  - rewrite forEach_cons. cbn [fst]. rewrite addState_unfold.
    cbn [fmap list_fmap fst] in Hp. apply not_elem_of_cons in Hp as [Hn Hp].
    rewrite bool_decide_eq_false_2 by done.
    destruct (IH (exec (AddState n) m) Hp) as (m' & Hrun & Hr & Hk & Hpr & Hc).
    cbn [exec] in Hrun, Hk, Hpr, Hc. rewrite addState_unfold in Hrun, Hk, Hpr, Hc.
    rewrite bool_decide_eq_false_2 in Hrun, Hk, Hpr, Hc by done.
    exists m'. split; [done|].
    split; [intros H; by apply Hr, (reachable_exec (AddState n))|].
    split; [|done]. intros k. rewrite Hk. simpl.
    rewrite lookup_insert, elem_of_cons. case_decide; subst.
    + split; [intros _; right; by left | intros _; left; by eexists].
    + split; [intros [?|?]; [by left | right; by right]
             |intros [?|[?|?]]; [by left | done | by right]].
Qed.

Lemma declare_resolved origin d g m a r :
  registered m origin = Some a →
  lookup_states (from origin m).2 d = Some r → truthy r = true →
  declare origin (d, g) m =
    (Normal tt, run [From origin; To (length (transition_objects m)) d;
                     When (length (transition_objects m)) g] m).
Proof.
  intros Ha Hr Ht. unfold declare, bind, run. cbn [foldl exec fst snd].
  rewrite (from_registered origin m a Ha) in *. cbn [snd] in *.
  unfold to, bind, getState. by rewrite Hr, Ht.
Qed.

Lemma declare_registered origin d g m a b :
  registered m origin = Some a → registered m d = Some b →
  declare origin (d, g) m =
    (Normal tt, run [From origin; To (length (transition_objects m)) d;
                     When (length (transition_objects m)) g] m).
Proof.
  intros Ha Hb. apply (declare_resolved origin d g m a (StateRef b)); [done| |done].
  apply lookup_registered. rewrite (from_registered origin m a Ha).
  by erewrite registered_ext.
Qed.

Lemma declare_unresolved origin d g m a :
  registered m origin = Some a →
  lookup_states (from origin m).2 d = None →
  declare origin (d, g) m = (Throw (StateNotFound d), exec (From origin) m).
Proof.
  intros Ha Hb. unfold declare, bind. cbn [exec fst snd].
  rewrite (from_registered origin m a Ha) in *. cbn [snd] in *.
  unfold to, bind, getState. by rewrite Hb.
Qed.

Lemma run_registry_setup cs m :
  forallb (λ c, match c with AddState _ => false | _ => true end) cs = true →
  _states (run cs m) = _states m ∧ _states_proto (run cs m) = _states_proto m.
Proof.
  revert m. induction cs as [|c cs IH]; intros m H; [done|].
  simpl in H. apply andb_true_iff in H as [Hc H]. rewrite run_cons.
  destruct (IH (exec c m) H) as [-> ->].
  destruct (exec_registry c m) as [-> ->]. by destruct c.
Qed.

Lemma run_current_setup cs m :
  forallb (λ c, match c with From _ | To _ _ | When _ _ => true | _ => false end)
    cs = true →
  currentState (run cs m) = currentState m.
Proof.
  revert m. induction cs as [|c cs IH]; intros m H; [done|].
  simpl in H. apply andb_true_iff in H as [Hc H]. rewrite run_cons, IH by done.
  destruct c as [n|n|t n|t g|n|k v|o]; cbn [exec] in *; try done.
  - destruct (from_cases n m) as [[e ->] | (a & _ & ->)]; done.
  - destruct (to_cases t n m) as [-> | (r & _ & _ & ->)]; done.
Qed.

(** The inner loop: the transitions of one origin. *)
Lemma forEach_declare origin (trs : list (string * (gmap string value → bool))) m :
  is_Some (registered m origin) → _states_proto m = None →
  if forallb (λ e, bool_decide (is_Some (lookup_states m e.1))) trs
  then ∃ m', forEach (declare origin) trs m = (Normal tt, m') ∧
         (reachable m → reachable m') ∧ _states m' = _states m ∧
         _states_proto m' = None ∧ currentState m' = currentState m
  else ∃ n m', lookup_states m n = None ∧
         forEach (declare origin) trs m = (Throw (StateNotFound n), m').
Proof.
  intros [a Ha]. revert m Ha. induction trs as [|[d g] trs IH]; intros m Ha Hp.
  - by exists m.
  - rewrite !forEach_cons. cbn [forallb fst snd].
    assert (Hfrom : lookup_states (from origin m).2 d = lookup_states m d).
    { rewrite (from_registered origin m a Ha). by apply lookup_states_plain_ext. }
    destruct (lookup_states m d) as [r|] eqn:Hr.
    + rewrite bool_decide_eq_true_2 by done. cbn [andb].
      rewrite (declare_resolved origin d g m a r Ha Hfrom
                 (lookup_states_plain_truthy m d r Hp Hr)).
      set (m1 := run _ m).
      destruct (run_registry_setup
        [From origin; To (length (transition_objects m)) d;
         When (length (transition_objects m)) g] m eq_refl) as [Hreg Hpr].
      fold m1 in Hreg, Hpr. rewrite Hp in Hpr.
      assert (Hcur : currentState m1 = currentState m)
        by (by apply run_current_setup).
      assert (Hr1 : reachable m → reachable m1).
      { intros H. by apply reachable_run. }
      assert (Ha1 : registered m1 origin = Some a)
        by (erewrite registered_ext; [done | done | by rewrite Hpr]).
      assert (Hall : forallb (λ e, bool_decide (is_Some (lookup_states m1 e.1))) trs
                     = forallb (λ e, bool_decide (is_Some (lookup_states m e.1))) trs).
      { apply forallb_pointwise. intros e.
        by rewrite (lookup_states_plain_ext m m1). }
      specialize (IH m1 Ha1 Hpr). rewrite Hall in IH. clearbody m1.
      destruct (forallb _ trs).
      * destruct IH as (m' & Hrun & Hr' & Hreg' & Hpr' & Hcur').
        exists m'. split; [done|]. split; [auto|]. repeat split; congruence.
      * destruct IH as (n & m' & Hn & Hrun). exists n, m'. split; [|done].
        by rewrite <- (lookup_states_plain_ext m m1).
    + rewrite bool_decide_eq_false_2 by (by intros [? ?]). cbn [andb].
      rewrite (declare_unresolved origin d g m a Ha Hfrom). by eexists d, _.
Qed.

(** The outer loop: every origin of the table. *)
Lemma forEach_origins
    (states : list (string * list (string * (gmap string value → bool)))) m :
  (∀ st, st ∈ states → is_Some (registered m st.1)) → _states_proto m = None →
  if forallb (λ st, forallb (λ e, bool_decide (is_Some (lookup_states m e.1))) st.2)
       states
  then ∃ m', forEach (λ st, forEach (declare st.1) st.2) states m = (Normal tt, m') ∧
         (reachable m → reachable m') ∧ _states m' = _states m ∧
         _states_proto m' = None ∧ currentState m' = currentState m
  else ∃ n m', lookup_states m n = None ∧
         forEach (λ st, forEach (declare st.1) st.2) states m
           = (Throw (StateNotFound n), m').
Proof.
  revert m. induction states as [|[origin trs] states IH]; intros m Hkeys Hp.
  - by exists m.
  - rewrite !forEach_cons. cbn [forallb fst snd].
    assert (Ho : is_Some (registered m origin)) by (apply (Hkeys (origin, trs)); left).
    pose proof (forEach_declare origin trs m Ho Hp) as H1.
    destruct (forallb _ trs); cbn [andb].
    + destruct H1 as (m1 & -> & Hr1 & Hreg1 & Hpr1 & Hcur1).
      assert (Hk : ∀ st, st ∈ states → is_Some (registered m1 st.1)).
      { intros st Hst. erewrite registered_ext; [|done|by rewrite Hpr1].
        apply Hkeys. by right. }
      assert (Hall :
        forallb (λ st, forallb (λ e, bool_decide (is_Some (lookup_states m1 e.1)))
                         st.2) states
        = forallb (λ st, forallb (λ e, bool_decide (is_Some (lookup_states m e.1)))
                           st.2) states).
      { apply forallb_pointwise. intros st. apply forallb_pointwise. intros e.
        by rewrite (lookup_states_plain_ext m m1). }
      specialize (IH m1 Hk Hpr1). rewrite Hall in IH.
      destruct (forallb _ states).
      * destruct IH as (m' & Hrun & Hr' & Hreg' & Hpr' & Hcur').
        exists m'. split; [done|]. split; [auto|]. repeat split; congruence.
      * destruct IH as (n & m' & Hn & Hrun). exists n, m'. split; [|done].
        by rewrite <- (lookup_states_plain_ext m m1).
    + destruct H1 as (n & m' & Hn & ->). by exists n, m'.
Qed.

(** X13: on a new machine, for a table none of whose states is named
    "__proto__", [initStatemachine] returns exactly when every destination
    and the initial state is a state of the table or a name that the
    registry inherits; the machine is then one built by calls, its
    registered names are the states of the table and, when the initial
    state is a state of the table, that state is current.  Otherwise it
    throws for a name that is neither a state of the table nor inherited. *)
Theorem initStatemachine_closed_table states Idle :
  "__proto__" ∉ states.*1 →
  let r := initStatemachine states Idle new_FiniteStateMachine in
  if resolved states Idle
  then (r.1 = Normal tt ∧ reachable r.2 ∧
        (∀ k, is_Some (_states r.2 !! k) ↔ k ∈ states.*1) ∧
        (Idle ∈ states.*1 → currentStateName r.2 = (Normal (Named Idle), r.2)))
  else (∃ n, (n ∉ states.*1) ∧ (n ∉ object_names) ∧
          r.1 = Throw (StateNotFound n)).
Proof.
  intros Hproto r. unfold r, initStatemachine, resolved, bind.
  destruct (forEach_addState states new_FiniteStateMachine Hproto)
    as (m1 & -> & Hr1 & Hk1 & Hp1 & Hc1).
  simpl in Hp1.
  assert (Hkeys : ∀ k, is_Some (_states m1 !! k) ↔ k ∈ states.*1).
  { intros k. rewrite Hk1. simpl. rewrite lookup_empty.
    split; [intros [[? ?]|?]; done | by right]. }
  assert (Hres : ∀ m k, _states m = _states m1 → _states_proto m = None →
    (is_Some (lookup_states m k) ↔ k ∈ states.*1 ∨ k ∈ object_names)).
  { intros m k Hs Hp. by rewrite lookup_states_plain_Some, Hs, Hkeys. }
  assert (Hnone : ∀ m k, _states m = _states m1 → _states_proto m = None →
    lookup_states m k = None → (k ∉ states.*1) ∧ (k ∉ object_names)).
  { intros m k Hs Hp Hk.
    assert (Hn : ¬ (k ∈ states.*1 ∨ k ∈ object_names)).
    { rewrite <- (Hres m k Hs Hp), Hk. by intros [? ?]. }
    tauto. }
  assert (Hforall :
    forallb (λ st, forallb (λ e,
        bool_decide (e.1 ∈ states.*1 ∨ e.1 ∈ object_names)) st.2) states
    = forallb (λ st, forallb (λ e, bool_decide (is_Some (lookup_states m1 e.1))) st.2)
        states).
  { apply forallb_pointwise. intros st. apply forallb_pointwise. intros e.
    apply bool_decide_ext. by rewrite Hres. }
  rewrite Hforall. clear Hforall.
  assert (Hk : ∀ st, st ∈ states → is_Some (registered m1 st.1)).
  { intros st Hst. destruct (proj2 (Hkeys st.1)) as [s Hs];
      [by apply list_elem_of_fmap_2|]. exists s. by apply registered_own. }
  pose proof (forEach_origins states m1 Hk Hp1) as H2.
  destruct (forallb _ states); cbn [andb].
  - destruct H2 as (m2 & -> & Hr2 & Hreg2 & Hp2 & Hc2).
    assert (Hreach : reachable m2) by (apply Hr2, Hr1; by exists []).
    case_bool_decide as HIdle.
    + apply (Hres m2 Idle Hreg2 Hp2) in HIdle as [r0 Hr0].
      pose proof (lookup_states_plain_truthy m2 Idle r0 Hp2 Hr0) as Ht0.
      assert (Hset : setCurrentState Idle m2
                     = (Normal tt, set_currentState (Some r0) m2)).
      { unfold setCurrentState, bind, getState. by rewrite Hr0, Ht0. }
      rewrite Hset. cbn [fst snd].
      assert (Hm : set_currentState (Some r0) m2 = exec (SetCurrentState Idle) m2)
        by (cbn [exec]; by rewrite Hset).
      split; [done|]. split; [rewrite Hm; by apply reachable_exec|]. split.
      * intros k. simpl. by rewrite Hreg2.
      * intros Hin. apply Hkeys in Hin as [s Hs]. rewrite <- Hreg2 in Hs.
        assert (Hr0' : r0 = StateRef s).
        { rewrite (lookup_states_plain m2 Idle Hp2), Hs in Hr0. congruence. }
        subst r0. apply reachable_wf in Hreach.
        destruct (wf_registry m2 Idle s Hreach (registered_own _ _ _ Hs))
          as (st & Hst & <-).
        by apply currentStateName_set.
    + assert (Hn : lookup_states m2 Idle = None).
      { destruct (lookup_states m2 Idle) as [r0|] eqn:E; [|done].
        destruct HIdle. apply (Hres m2 Idle Hreg2 Hp2). by eexists. }
      destruct (Hnone m2 Idle Hreg2 Hp2 Hn) as [? ?].
      exists Idle. split; [done|]. split; [done|].
      unfold setCurrentState, bind. by rewrite (getState_unknown _ _ Hn).
  - destruct H2 as (n & m' & Hn & ->).
    destruct (Hnone m1 n eq_refl Hp1 Hn) as [? ?]. by exists n.
Qed.

Lemma initStatemachine_closed_table_witness :
  let r := initStatemachine player_states "Idle" new_FiniteStateMachine in
  r.1 = Normal tt ∧ reachable r.2 ∧
  (∀ k, is_Some (_states r.2 !! k) ↔ k ∈ player_states.*1) ∧
  ("Idle" ∈ player_states.*1 →
   currentStateName r.2 = (Normal (Named "Idle"), r.2)).
Proof.
  refine (initStatemachine_closed_table player_states "Idle" _).
  apply (bool_decide_unpack _). by vm_compute.
Defined.

(** A table that names a destination it does not list throws when the
    registry does not inherit the name, and returns when it does: the
    transition is then bound to a function of [Object.prototype]. *)
Example initStatemachine_open_table :
  (initStatemachine [("Idle", [("Running", moving)])] "Idle"
     new_FiniteStateMachine).1 = Throw (StateNotFound "Running") ∧
  (initStatemachine [("Idle", [("toString", moving)])] "Idle"
     new_FiniteStateMachine).1 = Normal tt ∧
  toState_of (initStatemachine [("Idle", [("toString", moving)])] "Idle"
                new_FiniteStateMachine).2 0
    = Some (Some (Foreign (ObjectMethod "toString"))).
Proof. repeat split; reflexivity. Qed.

(** *** The transitions the set-up loop leaves *)

Lemma chain_unfold origin d g m a b :
  registered m origin = Some a → registered m d = Some b →
  let t := length (transition_objects m) in
  run [From origin; To t d; When t g] m =
    set_transition_objects (alter (bind_validation g) t)
      (set_transition_objects (alter (bind_toState (StateRef b)) t)
         (set_state_objects (alter (push_transition t) a)
            (set_transition_objects
               (λ h, h ++ [mkTransition always_true (Some (StateRef a)) None])
               m))).
Proof.
  intros Ha Hb t. unfold run. cbn [foldl exec].
  rewrite (from_registered origin m a Ha). fold t. cbn [snd].
  rewrite (to_registered t d _ b) by (by erewrite registered_ext).
  reflexivity.
Qed.

Lemma declare_old_transition origin d g m a b t0 :
  wf m → registered m origin = Some a → registered m d = Some b →
  t0 < length (transition_objects m) →
  let m' := run [From origin; To (length (transition_objects m)) d;
                 When (length (transition_objects m)) g] m in
  destination m' t0 = destination m t0 ∧ guard_of m' t0 = guard_of m t0.
Proof.
  intros Hwf Ha Hb Ht0 m'. unfold m'. rewrite (chain_unfold origin d g m a b Ha Hb).
  assert (Hm' : alter (bind_validation g) (length (transition_objects m))
                  (alter (bind_toState (StateRef b)) (length (transition_objects m))
                     (transition_objects m
                        ++ [mkTransition always_true (Some (StateRef a)) None]))
                  !! t0 = transition_objects m !! t0).
  { rewrite !list_lookup_alter_ne by lia. by rewrite lookup_app_l. }
  assert (Hs : ∀ s, name <$> alter (push_transition (length (transition_objects m)))
                               a (state_objects m) !! s
                    = name <$> state_objects m !! s).
  { intros s. rewrite list_lookup_alter. case_decide; [|done]. subst.
    by destruct (state_objects m !! s). }
  split.
  - unfold destination. cbn [transition_objects state_objects
      set_transition_objects set_state_objects]. rewrite Hm'.
    destruct (transition_objects m !! t0) as [tr|]; simpl; [|done].
    destruct (toState tr) as [[d0|f]|]; simpl; [|done|done]. apply Hs.
  - unfold guard_of. cbn [transition_objects set_transition_objects
      set_state_objects]. by rewrite Hm'.
Qed.

Lemma declare_new_transition origin d g m a b :
  wf m → registered m origin = Some a → registered m d = Some b →
  let t := length (transition_objects m) in
  let m' := run [From origin; To t d; When t g] m in
  destination m' t = Some d ∧ guard_of m' t = Some g.
Proof.
  intros Hwf Ha Hb t m'.
  destruct (wf_registry m _ _ Hwf Ha) as (sa & Hsa & _).
  destruct (chain_declares m origin d g a b sa Hwf Ha Hb Hsa) as (_ & Hg & Hd).
  done.
Qed.

Lemma declare_layout origin d g m a b :
  wf m → registered m origin = Some a → registered m d = Some b →
  let m' := run [From origin; To (length (transition_objects m)) d;
                 When (length (transition_objects m)) g] m in
  (∀ o, o ≠ origin → layout m' o = layout m o) ∧
  (∀ l, layout m origin = Some l →
     layout m' origin = Some (l ++ [(Some d, Some g)])).
Proof.
  intros Hwf Ha Hb m'.
  assert (Hreg : ∀ n, registered m' n = registered m n).
  { intros n. destruct (run_registry_setup
      [From origin; To (length (transition_objects m)) d;
       When (length (transition_objects m)) g] m eq_refl) as [H1 H2].
    by apply registered_ext. }
  assert (Hobj : state_objects m'
    = alter (push_transition (length (transition_objects m))) a (state_objects m)).
  { unfold m'. by rewrite (chain_unfold origin d g m a b Ha Hb). }
  assert (Hold : ∀ s st, state_objects m !! s = Some st →
    (λ t, (destination m' t, guard_of m' t)) <$> _transitions st
    = (λ t, (destination m t, guard_of m t)) <$> _transitions st).
  { intros s st Hst. apply list_fmap_ext. intros i t Hi.
    destruct (declare_old_transition origin d g m a b t Hwf Ha Hb) as [H1 H2].
    - apply (wf_lists m Hwf s st); [done|].
      by apply list_elem_of_lookup_2 in Hi.
    - unfold m'. by rewrite H1, H2. }
  destruct (declare_new_transition origin d g m a b Hwf Ha Hb) as [Hd Hg].
  fold m' in Hd, Hg. clearbody m'.
  split.
  - intros o Ho. unfold layout. rewrite Hreg.
    destruct (registered m o) as [a'|] eqn:Ha'; simpl; [|done].
    assert (a ≠ a').
    { intros <-. destruct (wf_registry m _ _ Hwf Ha) as (st & Hst & Hn).
      destruct (wf_registry m _ _ Hwf Ha') as (st' & Hst' & Hn'). congruence. }
    rewrite Hobj, list_lookup_alter_ne by done.
    destruct (state_objects m !! a') as [st|] eqn:Hst; simpl; [|done].
    f_equal. by apply (Hold a').
  - intros l Hl. unfold layout in *. rewrite Hreg, Ha in *. simpl in *.
    rewrite Hobj, list_lookup_alter_eq.
    destruct (state_objects m !! a) as [st|] eqn:Hst; simpl in *; [|done].
    injection Hl as <-. f_equal. rewrite fmap_app. f_equal.
    + by apply (Hold a).
    + simpl. by rewrite Hd, Hg.
Qed.

Lemma forEach_declare_layout origin
    (trs : list (string * (gmap string value → bool))) m :
  wf m → is_Some (registered m origin) →
  forallb (λ e, bool_decide (is_Some (registered m e.1))) trs = true →
  ∃ m', forEach (declare origin) trs m = (Normal tt, m') ∧ wf m' ∧
    (∀ n, registered m' n = registered m n) ∧
    (∀ o, o ≠ origin → layout m' o = layout m o) ∧
    (∀ l, layout m origin = Some l →
       layout m' origin = Some (l ++ ((λ e, (Some e.1, Some e.2)) <$> trs))).
Proof.
  intros Hwf [a Ha]. revert m Hwf Ha.
  induction trs as [|[d g] trs IH]; intros m Hwf Ha Hall.
  - exists m. split; [done|]. split; [done|]. split; [done|]. split; [done|].
    intros l Hl. rewrite Hl. f_equal. simpl. by rewrite app_nil_r.
  - cbn [forallb fst snd] in Hall. apply andb_true_iff in Hall as [Hd Hall].
    apply bool_decide_eq_true in Hd as [b Hb].
    rewrite forEach_cons, (declare_registered origin d g m a b Ha Hb).
    set (m1 := run _ m).
    assert (Hreg : ∀ n, registered m1 n = registered m n).
    { intros n. destruct (run_registry_setup
        [From origin; To (length (transition_objects m)) d;
         When (length (transition_objects m)) g] m eq_refl) as [H1 H2].
      by apply registered_ext. }
    destruct (declare_layout origin d g m a b Hwf Ha Hb) as [Hother Hown].
    fold m1 in Hother, Hown.
    destruct (IH m1) as (m' & Hrun & Hwf' & Hreg' & Hother' & Hown').
    { by apply wf_run. } { by rewrite Hreg. }
    { rewrite <- Hall. apply forallb_pointwise. intros e. by rewrite Hreg. }
    exists m'. split; [done|]. split; [done|].
    split; [intros n; by rewrite Hreg', Hreg|]. split.
    + intros o Ho. rewrite Hother', Hother; done.
    + intros l Hl. rewrite (Hown' _ (Hown l Hl)). cbn [fmap list_fmap fst snd].
      by rewrite <- app_assoc.
Qed.

Lemma forEach_origins_layout
    (states : list (string * list (string * (gmap string value → bool)))) m :
  wf m → NoDup states.*1 →
  (∀ st, st ∈ states → is_Some (registered m st.1) ∧ layout m st.1 = Some []) →
  forallb (λ st, forallb (λ e, bool_decide (is_Some (registered m e.1))) st.2)
    states = true →
  ∃ m', forEach (λ st, forEach (declare st.1) st.2) states m = (Normal tt, m') ∧
    (∀ n, registered m' n = registered m n) ∧
    (∀ o, o ∉ states.*1 → layout m' o = layout m o) ∧
    (∀ st, st ∈ states →
       layout m' st.1 = Some ((λ e, (Some e.1, Some e.2)) <$> st.2)).
Proof.
  revert m. induction states as [|[origin trs] states IH];
    intros m Hwf Hnd Hkeys Hall.
  - exists m. repeat split; try done. intros st Hst. by apply elem_of_nil in Hst.
  - cbn [forallb fst snd] in Hall. apply andb_true_iff in Hall as [Htrs Hall].
    cbn [fmap list_fmap fst] in Hnd. apply NoDup_cons in Hnd as [Hfresh Hnd].
    destruct (Hkeys (origin, trs)) as [Ho Hl]; [left|]. simpl in Ho, Hl.
    destruct (forEach_declare_layout origin trs m Hwf Ho Htrs)
      as (m1 & Hrun1 & Hwf1 & Hreg1 & Hother1 & Hown1).
    rewrite forEach_cons. cbn [fst snd]. rewrite Hrun1.
    destruct (IH m1) as (m' & Hrun & Hreg' & Hother' & Hown'); try done.
    { intros st Hst. rewrite Hreg1. destruct (Hkeys st) as [? ?]; [by right|].
      split; [done|]. rewrite Hother1; [done|].
      intros Heq. apply Hfresh. rewrite <- Heq. by apply list_elem_of_fmap_2. }
    { rewrite <- Hall. apply forallb_pointwise. intros st.
      apply forallb_pointwise. intros e. by rewrite Hreg1. }
    exists m'. split; [done|]. split; [intros n; by rewrite Hreg', Hreg1|]. split.
    + intros o Ho'. cbn [fmap list_fmap fst] in Ho'.
      apply not_elem_of_cons in Ho' as [Hne Ho'].
      rewrite Hother', Hother1; done.
    + intros st Hst. apply elem_of_cons in Hst as [-> | Hst].
      * simpl. rewrite Hother' by done. by rewrite (Hown1 [] Hl).
      * by apply Hown'.
Qed.

Lemma forEach_addState_fresh
    (states : list (string * list (string * (gmap string value → bool)))) m :
  wf m →
  ∃ m', forEach (λ st, addState st.1) states m = (Normal tt, m') ∧ wf m' ∧
    (∀ k, k ∉ states.*1 → registered m' k = registered m k) ∧
    (∀ s st, state_objects m !! s = Some st → state_objects m' !! s = Some st) ∧
    ∀ st, st ∈ states →
      is_Some (registered m' st.1) ∧ layout m' st.1 = Some [].
Proof.
  revert m. induction states as [|[n trs] states IH]; intros m Hwf.
  - exists m. split; [done|]. split; [done|]. split; [done|]. split; [done|].
    intros st Hst. by apply elem_of_nil in Hst.
  - rewrite forEach_cons. cbn [fst]. rewrite addState_unfold.
    destruct (IH (exec (AddState n) m)) as (m' & Hrun & Hwf' & Hreg & Hobj & Hst).
    { by apply wf_exec. }
    cbn [exec] in Hrun, Hreg, Hobj. rewrite addState_unfold in Hrun.
    exists m'. split; [done|]. split; [done|].
    split; [|split].
    + intros k Hk. cbn [fmap list_fmap fst] in Hk.
      apply not_elem_of_cons in Hk as [Hne Hk].
      rewrite Hreg by done. by apply registered_addState_other.
    + intros s st Hs. apply Hobj. rewrite (proj1 (addState_frame n m)).
      by apply lookup_app_l_Some.
    + intros st Hin. apply elem_of_cons in Hin as [-> | Hin]; [|by apply Hst].
      cbn [fst]. destruct (decide (n ∈ states.*1)) as [Hn | Hn].
      * apply list_elem_of_fmap in Hn as (st & -> & Hin). by apply Hst.
      * unfold layout. rewrite Hreg by done.
        rewrite (registered_addState_new n m Hwf).
        split; [by eexists|]. simpl.
        rewrite (Hobj (length (state_objects m)) (mkState n []));
          [done|]. rewrite (proj1 (addState_frame n m)).
        by apply list_lookup_middle.
Qed.

(** X14: after [initStatemachine] on a closed table without repeated states,
    the transitions of every state are those of its table entry, in the
    order of the table, each with its destination and its guard. *)
Theorem initStatemachine_layout states Idle origin table :
  NoDup states.*1 →
  closed states Idle = true →
  (origin, table) ∈ states →
  layout (initStatemachine states Idle new_FiniteStateMachine).2 origin
    = Some ((λ e, (Some e.1, Some e.2)) <$> table).
Proof.
  intros Hnd Hclosed Hin. unfold closed in Hclosed.
  apply andb_true_iff in Hclosed as [Hall HIdle].
  apply bool_decide_eq_true in HIdle.
  unfold initStatemachine, bind.
  destruct (forEach_addState_fresh states new_FiniteStateMachine wf_new)
    as (m1 & -> & Hwf1 & Hreg1 & _ & Hst1).
  assert (Hkeys : ∀ k, k ∈ states.*1 → is_Some (registered m1 k)).
  { intros k Hk. apply list_elem_of_fmap in Hk as (st & -> & Hst). by apply Hst1. }
  assert (Hall1 :
    forallb (λ st, forallb (λ e, bool_decide (is_Some (registered m1 e.1))) st.2)
      states = true).
  { apply forallb_forall. intros st Hst. apply forallb_forall. intros e He.
    apply bool_decide_eq_true, Hkeys.
    rewrite forallb_forall in Hall. specialize (Hall st Hst).
    rewrite forallb_forall in Hall. specialize (Hall e He).
    by apply bool_decide_eq_true in Hall. }
  destruct (forEach_origins_layout states m1 Hwf1 Hnd Hst1 Hall1)
    as (m2 & -> & Hreg2 & _ & Hlay).
  destruct (Hkeys Idle HIdle) as [s Hs]. rewrite <- Hreg2 in Hs.
  unfold setCurrentState, bind. rewrite (getState_registered Idle m2 s Hs).
  specialize (Hlay (origin, table) Hin). simpl in Hlay.
  unfold layout in *. simpl. done.
Qed.

Lemma initStatemachine_layout_witness :
  layout (initStatemachine player_states "Idle" new_FiniteStateMachine).2 "Running"
    = Some [(Some "Idle", Some still); (Some "Jumping", Some airborne)].
Proof.
  apply (initStatemachine_layout player_states "Idle" "Running"
    [("Idle", still); ("Jumping", airborne)]).
  - apply (bool_decide_unpack _). by vm_compute.
  - reflexivity.
  - right. left.
Defined.

(** ** Order of the floats *)

Ltac cmp_cases :=
  repeat match goal with
  | |- context [Z.compare ?a ?b] => destruct (Z.compare_spec a b)
  | H : context [Z.compare ?a ?b] |- _ => destruct (Z.compare_spec a b)
  | |- context [Pos.compare_cont Eq ?a ?b] =>
      change (Pos.compare_cont Eq a b) with (Pos.compare a b);
      destruct (Pos.compare_spec a b)
  | H : context [Pos.compare_cont Eq ?a ?b] |- _ =>
      change (Pos.compare_cont Eq a b) with (Pos.compare a b) in H;
      destruct (Pos.compare_spec a b)
  end.

Ltac spec_float_cases :=
  unfold SFleb, SFltb, SFeqb;
  repeat match goal with
  | f : spec_float |- _ => destruct f as [[|]|[|]| |[|] ? ?]
  end;
  simpl; try done; cmp_cases; simpl; try done; try lia.

Lemma SFlt_irrefl a : SFltb a a = false.
Proof. spec_float_cases. Qed.

Lemma SFle_lt_trans a b c :
  SFleb a b = true → SFltb b c = true → SFltb a c = true.
Proof. spec_float_cases. Qed.

Lemma SFlt_le_trans a b c :
  SFltb a b = true → SFleb b c = true → SFltb a c = true.
Proof. spec_float_cases. Qed.

Lemma SFle_trans a b c :
  SFleb a b = true → SFleb b c = true → SFleb a c = true.
Proof. spec_float_cases. Qed.

Lemma SFlt_le a b : SFltb a b = true → SFleb a b = true.
Proof. spec_float_cases. Qed.

Lemma SFlt_asym a b : SFltb a b = true → SFltb b a = false.
Proof. spec_float_cases. Qed.

Lemma SFlt_ne a b : SFltb a b = true → SFeqb a b = false ∧ SFeqb a a = true.
Proof. spec_float_cases. Qed.

Lemma SFnot_lt_le a b :
  SFltb a b = false → SFeqb a a = true → SFeqb b b = true → SFleb b a = true.
Proof. spec_float_cases. Qed.

Lemma SFle_refl a : SFeqb a a = true → SFleb a a = true.
Proof. spec_float_cases. Qed.

Lemma SFlt_not_nan a b :
  SFltb a b = true → SFeqb a a = true ∧ SFeqb b b = true.
Proof. spec_float_cases. Qed.

Lemma SFeq_sym a b : SFeqb a b = SFeqb b a.
Proof. spec_float_cases. Qed.

Lemma SFeq_trans a b c :
  SFeqb a b = true → SFeqb b c = true → SFeqb a c = true.
Proof. spec_float_cases. Qed.

Lemma float_lt_irrefl a : PrimFloat.ltb a a = false.
Proof. rewrite FloatAxioms.ltb_spec. apply SFlt_irrefl. Qed.

Lemma float_le_lt_trans a b c :
  PrimFloat.leb a b = true → PrimFloat.ltb b c = true → PrimFloat.ltb a c = true.
Proof. rewrite FloatAxioms.leb_spec, !FloatAxioms.ltb_spec. apply SFle_lt_trans. Qed.

Lemma float_lt_le_trans a b c :
  PrimFloat.ltb a b = true → PrimFloat.leb b c = true → PrimFloat.ltb a c = true.
Proof. rewrite FloatAxioms.leb_spec, !FloatAxioms.ltb_spec. apply SFlt_le_trans. Qed.

Lemma float_le_trans a b c :
  PrimFloat.leb a b = true → PrimFloat.leb b c = true → PrimFloat.leb a c = true.
Proof. rewrite !FloatAxioms.leb_spec. apply SFle_trans. Qed.

Lemma float_lt_le a b : PrimFloat.ltb a b = true → PrimFloat.leb a b = true.
Proof. rewrite FloatAxioms.leb_spec, FloatAxioms.ltb_spec. apply SFlt_le. Qed.

Lemma float_lt_asym a b : PrimFloat.ltb a b = true → PrimFloat.ltb b a = false.
Proof. rewrite !FloatAxioms.ltb_spec. apply SFlt_asym. Qed.

Lemma float_lt_ne a b :
  PrimFloat.ltb a b = true →
  PrimFloat.eqb a b = false ∧ PrimFloat.eqb a a = true.
Proof. rewrite FloatAxioms.ltb_spec, !FloatAxioms.eqb_spec. apply SFlt_ne. Qed.

Lemma float_not_lt_le a b :
  PrimFloat.ltb a b = false → PrimFloat.eqb a a = true →
  PrimFloat.eqb b b = true → PrimFloat.leb b a = true.
Proof. rewrite FloatAxioms.ltb_spec, !FloatAxioms.eqb_spec, FloatAxioms.leb_spec. apply SFnot_lt_le. Qed.

Lemma float_le_refl a : PrimFloat.eqb a a = true → PrimFloat.leb a a = true.
Proof. rewrite FloatAxioms.eqb_spec, FloatAxioms.leb_spec. apply SFle_refl. Qed.

Lemma float_lt_not_nan a b :
  PrimFloat.ltb a b = true →
  PrimFloat.eqb a a = true ∧ PrimFloat.eqb b b = true.
Proof. rewrite FloatAxioms.ltb_spec, !FloatAxioms.eqb_spec. apply SFlt_not_nan. Qed.

Lemma float_eq_sym a b : PrimFloat.eqb a b = PrimFloat.eqb b a.
Proof. rewrite !FloatAxioms.eqb_spec. apply SFeq_sym. Qed.

Lemma float_eq_trans a b c :
  PrimFloat.eqb a b = true → PrimFloat.eqb b c = true → PrimFloat.eqb a c = true.
Proof. rewrite !FloatAxioms.eqb_spec. apply SFeq_trans. Qed.

(** ** Comparisons of rectangles *)

Ltac float_bool_cases :=
  repeat match goal with
  | |- context [PrimFloat.leb ?a ?b] => destruct (PrimFloat.leb a b) eqn:?
  | |- context [PrimFloat.ltb ?a ?b] => destruct (PrimFloat.ltb a b) eqn:?
  end.

Lemma intersects_comm a b :
  Rectangle.intersects a b = Rectangle.intersects b a.
Proof. unfold Rectangle.intersects. float_bool_cases; reflexivity. Qed.

(** X15: [intersects] does not depend on the order of its two rectangles. *)
Theorem Rectangle_intersects_sym a b :
  Rectangle.intersects a b = Rectangle.intersects b a.
Proof. apply intersects_comm. Qed.

(** X16: no point whose abscissa is the right edge, or whose ordinate is the
    bottom edge, is contained. *)
Theorem Rectangle_contains_half_open a px py :
  Rectangle.contains a (Rectangle.right a) py = false ∧
  Rectangle.contains a px (Rectangle.bottom a) = false.
Proof.
  unfold Rectangle.contains. rewrite !float_lt_irrefl.
  split; float_bool_cases; reflexivity.
Qed.

(** X17: [containsRect] never holds of a rectangle and itself, and never holds
    both ways. *)
Theorem Rectangle_containsRect_strict a b :
  Rectangle.containsRect a a = false ∧
  (Rectangle.containsRect a b = true → Rectangle.containsRect b a = false).
Proof.
  unfold Rectangle.containsRect. split.
  - rewrite !float_lt_irrefl. float_bool_cases; reflexivity.
  - destruct (PrimFloat.ltb (Rectangle.volume b) (Rectangle.volume a)); [done|].
    intros H. repeat (apply andb_true_iff in H as [H ?]).
    rewrite (float_lt_asym (Rectangle.right a) (Rectangle.right b)) by done.
    float_bool_cases; reflexivity.
Qed.

Lemma Rectangle_containsRect_strict_witness :
  Rectangle.containsRect
    (Rectangle.mk 0 0 4 4) (Rectangle.mk 1 1 1 1) = false.
Proof.
  apply (proj2 (Rectangle_containsRect_strict
    (Rectangle.mk 1 1 1 1) (Rectangle.mk 0 0 4 4))).
  vm_compute. reflexivity.
Defined.

(** X18: two rectangles that contain a common point intersect. *)
Theorem Rectangle_common_point_intersects a b px py :
  Rectangle.contains a px py = true →
  Rectangle.contains b px py = true →
  Rectangle.intersects a b = true.
Proof.
  unfold Rectangle.contains, Rectangle.intersects.
  destruct (PrimFloat.leb (Rectangle.width a) PrimFloat.zero); simpl; [done|].
  destruct (PrimFloat.leb (Rectangle.height a) PrimFloat.zero); simpl; [done|].
  destruct (PrimFloat.leb (Rectangle.width b) PrimFloat.zero); simpl; [done|].
  destruct (PrimFloat.leb (Rectangle.height b) PrimFloat.zero); simpl; [done|].
  intros Ha Hb.
  repeat (apply andb_true_iff in Ha as [Ha ?]).
  repeat (apply andb_true_iff in Hb as [Hb ?]).
  assert (Hno : ∀ lo hi p, PrimFloat.leb lo p = true → PrimFloat.ltb p hi = true →
    PrimFloat.ltb hi lo = false).
  { intros lo hi p Hlo Hhi. destruct (PrimFloat.ltb hi lo) eqn:E; [|done].
    pose proof (float_le_lt_trans _ _ _ Hlo Hhi) as Hlt.
    by rewrite (float_lt_asym _ _ Hlt) in E. }
  rewrite (Hno (Rectangle.x b) (Rectangle.right a) px),
    (Hno (Rectangle.y b) (Rectangle.bottom a) py),
    (Hno (Rectangle.x a) (Rectangle.right b) px),
    (Hno (Rectangle.y a) (Rectangle.bottom b) py); done.
Qed.

Lemma Rectangle_common_point_intersects_witness :
  Rectangle.intersects (Rectangle.mk 0 0 4 4) (Rectangle.mk 2 2 4 4) = true.
Proof.
  apply (Rectangle_common_point_intersects _ _ 3 3); vm_compute; reflexivity.
Defined.

(** X19: [equals] is symmetric and transitive, and a rectangle that equals
    some rectangle equals its clone. *)
Theorem Rectangle_equals_partial_equivalence a b c :
  Rectangle.equals a b = Rectangle.equals b a ∧
  (Rectangle.equals a b = true → Rectangle.equals b c = true →
     Rectangle.equals a c = true) ∧
  (Rectangle.equals a b = true → Rectangle.equals a (Rectangle.clone a None) = true).
Proof.
  unfold Rectangle.equals, Rectangle.clone. simpl. split; [|split].
  - by rewrite (float_eq_sym (Rectangle.x a)), (float_eq_sym (Rectangle.y a)),
      (float_eq_sym (Rectangle.width a)), (float_eq_sym (Rectangle.height a)).
  - intros H1 H2.
    repeat (apply andb_true_iff in H1 as [H1 ?]).
    repeat (apply andb_true_iff in H2 as [H2 ?]).
    rewrite (float_eq_trans (Rectangle.x a) (Rectangle.x b)),
      (float_eq_trans (Rectangle.y a) (Rectangle.y b)),
      (float_eq_trans (Rectangle.width a) (Rectangle.width b)),
      (float_eq_trans (Rectangle.height a) (Rectangle.height b)); done.
  - intros H1. repeat (apply andb_true_iff in H1 as [H1 ?]).
    assert (Hr : ∀ u v, PrimFloat.eqb u v = true → PrimFloat.eqb u u = true).
    { intros u v Huv. apply (float_eq_trans u v u); [done|].
      by rewrite float_eq_sym. }
    rewrite (Hr (Rectangle.x a) (Rectangle.x b)),
      (Hr (Rectangle.y a) (Rectangle.y b)),
      (Hr (Rectangle.width a) (Rectangle.width b)),
      (Hr (Rectangle.height a) (Rectangle.height b)); done.
Qed.

Lemma Rectangle_equals_partial_equivalence_witness :
  Rectangle.equals (Rectangle.mk 0 1 2 3) (Rectangle.mk (-0) 1 2 3) = true.
Proof.
  apply (proj1 (proj2 (Rectangle_equals_partial_equivalence
    (Rectangle.mk 0 1 2 3) (Rectangle.mk 0 1 2 3) (Rectangle.mk (-0) 1 2 3))));
    vm_compute; reflexivity.
Defined.

(** A rectangle with a NaN field is not equal to itself. *)
Example Rectangle_equals_nan :
  Rectangle.equals (Rectangle.mk PrimFloat.nan 0 1 1)
    (Rectangle.clone (Rectangle.mk PrimFloat.nan 0 1 1) None) = false.
Proof. vm_compute. reflexivity. Qed.

(** X20: a rectangle of negative width and negative height is not [empty],
    yet it contains no point and intersects no rectangle. *)
Theorem Rectangle_negative_size a :
  PrimFloat.ltb (Rectangle.width a) PrimFloat.zero = true →
  PrimFloat.ltb (Rectangle.height a) PrimFloat.zero = true →
  Rectangle.empty a = false ∧
  (∀ px py, Rectangle.contains a px py = false) ∧
  (∀ b, Rectangle.intersects a b = false ∧ Rectangle.intersects b a = false).
Proof.
  intros Hw Hh.
  destruct (float_lt_ne _ _ Hw) as [Hw0 Hwn].
  destruct (float_lt_ne _ _ Hh) as [Hh0 Hhn].
  pose proof (float_lt_le _ _ Hw) as Hwle.
  split; [|split].
  - unfold Rectangle.empty, Rectangle.not_.
    by rewrite Hw0, Hwn, Hh0, Hhn.
  - intros px py. unfold Rectangle.contains. by rewrite Hwle.
  - intros b. rewrite (intersects_comm b a).
    unfold Rectangle.intersects. by rewrite Hwle.
Qed.

Lemma Rectangle_negative_size_witness :
  Rectangle.empty (Rectangle.mk 0 0 (-2) (-3)) = false ∧
  (∀ px py, Rectangle.contains (Rectangle.mk 0 0 (-2) (-3)) px py = false) ∧
  (∀ b, Rectangle.intersects (Rectangle.mk 0 0 (-2) (-3)) b = false ∧
        Rectangle.intersects b (Rectangle.mk 0 0 (-2) (-3)) = false).
Proof.
  apply (Rectangle_negative_size (Rectangle.mk 0 0 (-2) (-3)));
    vm_compute; reflexivity.
Defined.

Lemma aabb_xMin e points :
  Rectangle.xMin (foldl Rectangle.widen e points)
    = foldl (λ m v, if PrimFloat.ltb v m then v else m) (Rectangle.xMin e)
        (Point.x <$> points).
Proof.
  revert e. induction points as [|p points IH]; intros e; [done|].
  simpl. by rewrite IH.
Qed.

Lemma aabb_yMin e points :
  Rectangle.yMin (foldl Rectangle.widen e points)
    = foldl (λ m v, if PrimFloat.ltb v m then v else m) (Rectangle.yMin e)
        (Point.y <$> points).
Proof.
  revert e. induction points as [|p points IH]; intros e; [done|].
  simpl. by rewrite IH.
Qed.

Lemma running_min_bound (m : float) (vs : list float) :
  PrimFloat.eqb m m = true →
  let m' := foldl (λ m v, if PrimFloat.ltb v m then v else m) m vs in
  PrimFloat.eqb m' m' = true ∧ PrimFloat.leb m' m = true ∧
  (m' = m ∨ m' ∈ vs) ∧
  ∀ v, v ∈ vs → PrimFloat.eqb v v = true → PrimFloat.leb m' v = true.
Proof.
  revert m. induction vs as [|v vs IH]; intros m Hm; simpl.
  - split; [done|]. split; [by apply float_le_refl|]. split; [by left|].
    intros v Hv. by apply elem_of_nil in Hv.
  - set (m1 := if PrimFloat.ltb v m then v else m).
    assert (H1 : PrimFloat.eqb m1 m1 = true ∧ PrimFloat.leb m1 m = true ∧
      (m1 = m ∨ m1 = v) ∧
      (PrimFloat.eqb v v = true → PrimFloat.leb m1 v = true)).
    { unfold m1. destruct (PrimFloat.ltb v m) eqn:E.
      - destruct (float_lt_not_nan _ _ E) as [Hv _].
        split; [done|]. split; [by apply float_lt_le|]. split; [by right|].
        intros _. by apply float_le_refl.
      - split; [done|]. split; [by apply float_le_refl|]. split; [by left|].
        intros Hv. by apply float_not_lt_le. }
    destruct H1 as (Hn1 & Hle1 & Hor1 & Hv1).
    destruct (IH m1 Hn1) as (Hn & Hle & Hor & Hall).
    split; [done|]. split; [by eapply float_le_trans|]. split.
    + destruct Hor as [-> | Hin]; [|right; by right].
      destruct Hor1 as [-> | ->]; [by left | right; left].
    + intros w Hw Hwn. apply elem_of_cons in Hw as [-> | Hw]; [|by apply Hall].
      eapply float_le_trans; [exact Hle | by apply Hv1].
Qed.

(** X21: the corner of the box [aabb] computes is, in each coordinate,
    [+∞] or the coordinate of one of the points, and it is at most the
    coordinate of every point whose coordinate is not NaN. *)
Theorem Rectangle_aabb_corner points out :
  let r := Rectangle.aabb points out in
  (Rectangle.x r = PrimFloat.infinity ∨ Rectangle.x r ∈ Point.x <$> points) ∧
  (Rectangle.y r = PrimFloat.infinity ∨ Rectangle.y r ∈ Point.y <$> points) ∧
  ∀ p, p ∈ points →
    (PrimFloat.eqb (Point.x p) (Point.x p) = true →
       PrimFloat.leb (Rectangle.x r) (Point.x p) = true) ∧
    (PrimFloat.eqb (Point.y p) (Point.y p) = true →
       PrimFloat.leb (Rectangle.y r) (Point.y p) = true).
Proof.
  intros r. unfold r, Rectangle.aabb, Rectangle.setTo. simpl.
  rewrite aabb_xMin, aabb_yMin. simpl.
  destruct (running_min_bound PrimFloat.infinity (Point.x <$> points) eq_refl)
    as (_ & _ & Hx & Hallx).
  destruct (running_min_bound PrimFloat.infinity (Point.y <$> points) eq_refl)
    as (_ & _ & Hy & Hally).
  split; [done|]. split; [done|]. intros p Hp. split.
  - apply Hallx. by apply list_elem_of_fmap_2.
  - apply Hally. by apply list_elem_of_fmap_2.
Qed.

(** With no point the extremes stay at the infinities they start from. *)
Example Rectangle_aabb_empty out :
  Rectangle.aabb [] out
    = Rectangle.mk PrimFloat.infinity PrimFloat.infinity
        PrimFloat.neg_infinity PrimFloat.neg_infinity.
Proof. reflexivity. Qed.

Lemma Rectangle_aabb_corner_witness :
  let r := Rectangle.aabb
    [Point.mk 3 (-1); Point.mk PrimFloat.nan 2; Point.mk 1 5] (Rectangle.mk 0 0 0 0) in
  (PrimFloat.eqb 3 3 = true → PrimFloat.leb (Rectangle.x r) 3 = true) ∧
  (PrimFloat.eqb (-1) (-1) = true → PrimFloat.leb (Rectangle.y r) (-1) = true).
Proof.
  apply (proj2 (proj2 (Rectangle_aabb_corner
    [Point.mk 3 (-1); Point.mk PrimFloat.nan 2; Point.mk 1 5]
    (Rectangle.mk 0 0 0 0))) (Point.mk 3 (-1))).
  left.
Defined.
